(** * SergeAI backend: crisis triage, bearer tokens and password reset

    A shallow embedding of the authentication and triage core of the
    backend:

    - [app/routers/chat.py]   : [generate_ai_response]
    - [app/utils/utils.py]    : [create_access_token], [decode_access_token]
    - [app/routers/users.py]  : [AuthService.get_current_user],
      [authenticate_user], [login_user], [forgot_password],
      [verify_reset_token], [reset_password]

    Python [str] values are carried as [string]; text outside ASCII is the
    sequence of its UTF-8 bytes.  Instants ([datetime]) and durations
    ([timedelta]) are integers counting microseconds.  What the Python
    runtime and third-party packages provide ([str.lower], [str.strip],
    [int], the two JWT packages, the password hashing context) is taken
    as a parameter of the section that uses it, with the laws it is
    relied on for; logging through [print] is left out. *)

From Stdlib Require Import ZArith String Ascii List Bool Lia.
From stdpp Require Import base option list gmap strings pretty sorting.

Local Open Scope string_scope.
Local Open Scope Z_scope.

(** ** Strings *)

Module PyStr.

(** [s.startswith(k)] *)
Fixpoint startswith (k s : string) : bool :=
  match k, s with
  | EmptyString, _ => true
  | String _ _, EmptyString => false
  | String a k', String b s' => if Ascii.eqb a b then startswith k' s' else false
  end.

(** [k in s]: [k] occurs in [s] as a contiguous run of characters. *)
Fixpoint contains (k s : string) : bool :=
  startswith k s ||
  match s with
  | EmptyString => false
  | String _ s' => contains k s'
  end.

(** [any(k in s for k in keywords)] *)
Definition any_in (keywords : list string) (s : string) : bool :=
  existsb (fun keyword => contains keyword s) keywords.

(** Truth value of an optional string: [None] and [""] are false. *)
Definition truthy (o : option string) : bool :=
  match o with
  | None => false
  | Some EmptyString => false
  | Some (String _ _) => true
  end.

(** Lowercasing of the ASCII range, where [str.lower] sends [A-Z] to [a-z]
    and fixes every other character.  It instantiates the [lower] parameter
    of the sections below on concrete inputs. *)
Definition ascii_lower_char (c : ascii) : ascii :=
  let n := N_of_ascii c in
  if ((65 <=? n) && (n <=? 90))%N then ascii_of_N (n + 32) else c.

Fixpoint ascii_lower (s : string) : string :=
  match s with
  | EmptyString => EmptyString
  | String c s' => String (ascii_lower_char c) (ascii_lower s')
  end.

(** Two characters that differ at most by ASCII letter case. *)
Definition same_letter (a b : ascii) : Prop :=
  ascii_lower_char a = ascii_lower_char b.

Inductive case_variant : string -> string -> Prop :=
| cv_nil : case_variant EmptyString EmptyString
| cv_cons a b s t :
    same_letter a b -> case_variant s t ->
    case_variant (String a s) (String b t).

Lemma append_String a (s t : string) :
  (String a s ++ t)%string = String a (s ++ t)%string.
Proof. reflexivity. Qed.

Lemma append_Empty (t : string) : (EmptyString ++ t)%string = t.
Proof. reflexivity. Qed.

Lemma startswith_spec k s :
  startswith k s = true <-> exists t, s = (k ++ t)%string.
Proof.
  revert s. induction k as [|a k IH]; intros s; simpl.
  - split; [intros _; by exists s | done].
  - destruct s as [|b s].
    + split; [done | intros [t Ht]; rewrite append_String in Ht; discriminate].
    + destruct (Ascii.eqb_spec a b) as [->|Hne].
      * rewrite IH. split; intros [t Ht]; exists t;
          rewrite append_String in *; congruence.
      * split; [done | intros [t Ht]; rewrite append_String in Ht; congruence].
Qed.

(** [contains] is the substring relation. *)
Lemma contains_spec k s :
  contains k s = true <-> exists pre post, s = (pre ++ k ++ post)%string.
Proof.
  induction s as [|b s IH]; simpl.
  - rewrite orb_false_r, startswith_spec. split.
    + intros [t Ht]. by exists EmptyString, t.
    + intros [pre [post H]]. destruct pre as [|c pre].
      * by exists post.
      * rewrite append_String in H. discriminate.
  - rewrite orb_true_iff, startswith_spec, IH. split.
    + intros [[t Ht] | [pre [post H]]].
      * by exists EmptyString, t.
      * exists (String b pre), post. rewrite append_String. by rewrite H.
    + intros [pre [post H]]. destruct pre as [|c pre].
      * left. by exists post.
      * right. exists pre, post. rewrite append_String in H. congruence.
Qed.

Lemma any_in_spec keywords s :
  any_in keywords s = true <->
  exists keyword, In keyword keywords /\ contains keyword s = true.
Proof. unfold any_in. apply existsb_exists. Qed.

Lemma case_variant_lower s t :
  case_variant s t -> ascii_lower s = ascii_lower t.
Proof. induction 1 as [|a b s t Hab _ IH]; simpl; [done | by rewrite Hab, IH]. Qed.

End PyStr.

(** ** The chat responder ([app/routers/chat.py]) *)

Module Chat.
Import PyStr.

(** A row of [chat_messages], as far as the responder reads it. *)
Record ChatMessage := { msg_role : string; msg_content : string }.

(** The keyword arguments of [openai.ChatCompletion.create];
    [temperature] is the ratio numerator/denominator. *)
Record CompletionRequest := {
  model : string;
  messages : list (string * string);
  max_tokens : Z;
  temperature : Z * Z
}.

(** What the responder asks of its collaborators.  A call made inside the
    [try] block answers [None] when it raises: [except Exception] catches
    every such failure. *)
Inductive Call : Type -> Type :=
| RecentMessages (session_id : Z) (limit : Z) : Call (option (list ChatMessage))
| ChatCompletionCreate (req : CompletionRequest) : Call (option string)
| RandomChoice (choices : list string) : Call string.

(** A program is the tree of the calls it makes, ending in its result. *)
Inductive Prog (A : Type) : Type :=
| Ret (a : A)
| Do (X : Type) (c : Call X) (k : X -> Prog A).

Arguments Ret {A} a.
Arguments Do {A X} c k.

Fixpoint bind {A B} (p : Prog A) (f : A -> Prog B) : Prog B :=
  match p with
  | Ret a => f a
  | Do c k => Do c (fun x => bind (k x) f)
  end.

Definition call {X} (c : Call X) : Prog X := Do c Ret.

Notation "x <- p ;; q" := (bind p (fun x => q))
  (at level 100, p at next level, right associativity).

(** The program reaches the external completion call on some run. *)
Inductive calls_openai {A} : Prog A -> Prop :=
| calls_here req k : calls_openai (Do (ChatCompletionCreate req) k)
| calls_later X (c : Call X) k x : calls_openai (k x) -> calls_openai (Do c k).

(** Running a program against concrete collaborators, with the log of the
    calls made. *)
Inductive Event :=
| EvRecentMessages (session_id : Z)
| EvChatCompletion (req : CompletionRequest)
| EvRandomChoice.

Record World := {
  w_recent : Z -> Z -> option (list ChatMessage);
  w_completion : CompletionRequest -> option string;
  w_choice : list string -> string
}.

Definition answer (w : World) {X} (c : Call X) : X * Event :=
  match c in Call X return X * Event with
  | RecentMessages sid lim => (w_recent w sid lim, EvRecentMessages sid)
  | ChatCompletionCreate req => (w_completion w req, EvChatCompletion req)
  | RandomChoice l => (w_choice w l, EvRandomChoice)
  end.

Fixpoint run {A} (w : World) (p : Prog A) : A * list Event :=
  match p with
  | Ret a => (a, [])
  | Do c k =>
      let '(x, e) := answer w c in
      let '(a, log) := run w (k x) in
      (a, e :: log)
  end.

Definition is_completion (e : Event) : bool :=
  match e with EvChatCompletion _ => true | _ => false end.

Definition supportive_responses : list string := [
  "I understand how you're feeling. Would you like to explore some coping strategies together?";
  "That sounds challenging. Remember that it's okay to feel this way, and you're taking a positive step by reaching out.";
  "I'm here to support you. Would you like to try a quick mindfulness exercise?";
  "Your feelings are valid. Let's work through this together. What would be most helpful right now?";
  "Thank you for sharing that with me. How long have you been experiencing these feelings?";
  "It's completely normal to have these thoughts. Would you like to practice some grounding techniques?";
  "I appreciate you opening up to me. Sometimes talking through our feelings can really help.";
  "You're being very brave by reaching out. Would you like me to suggest some helpful resources?";
  "I hear that you're struggling. Remember that seeking help is a sign of strength, not weakness.";
  "Let's take this one step at a time. What's the most pressing thing on your mind right now?"
].

Definition crisis_keywords : list string :=
  ["suicide"; "kill myself"; "end it all"; "harm myself"; "die"; "hurt myself"].
Definition anxiety_keywords : list string :=
  ["anxious"; "anxiety"; "panic"; "worried"; "stressed"; "overwhelmed"].
Definition depression_keywords : list string :=
  ["depressed"; "sad"; "hopeless"; "empty"; "worthless"; "lonely"].

Definition crisis_response : string :=
  "I'm really concerned about what you're sharing with me. Your life has value and meaning. Please reach out to a crisis helpline immediately - you can call 988 (Suicide & Crisis Lifeline) or text HOME to 741741. You don't have to go through this alone. Would you like me to help you find additional professional support resources?".
Definition anxiety_response : string :=
  "I understand that anxiety can be really overwhelming. Would you like to try a quick breathing exercise together, or would you prefer to talk about what's been making you feel anxious? Remember, these feelings are temporary and manageable.".
Definition depression_response : string :=
  "I hear that you're going through a difficult time. These feelings of sadness are valid, and I want you to know that you're not alone. Would you like to explore some small steps that might help you feel a bit better today?".

Definition system_prompt : string :=
  "You are SergeAI, a supportive mental health assistant. Be empathetic, helpful, and always prioritize user safety. Keep responses conversational and supportive.".

Definition context_header : string :=
  String.concat "" [
    "You are SergeAI, a compassionate mental health support assistant. Always prioritize user safety and well-being. If someone expresses suicidal thoughts or crisis, direct them to professional help immediately.";
    String (ascii_of_N 10) (String (ascii_of_N 10) "Conversation history:");
    String (ascii_of_N 10) ""].

(** The severity tiers, highest priority first. *)
Inductive Tier := Crisis | Anxiety | Depression.

Definition tiers : list Tier := [Crisis; Anxiety; Depression].

Definition keywords_of (t : Tier) : list string :=
  match t with
  | Crisis => crisis_keywords
  | Anxiety => anxiety_keywords
  | Depression => depression_keywords
  end.

Definition safety_response (t : Tier) : string :=
  match t with
  | Crisis => crisis_response
  | Anxiety => anxiety_response
  | Depression => depression_response
  end.

Section Responder.

(** [str.lower] and [str.strip] of the runtime. *)
Variable lower : string -> string.
Variable strip : string -> string.

(** [context], built from the history oldest first; the request below
    does not read it. *)
Definition build_context (recent_messages : list ChatMessage)
    (user_message : string) : string :=
  let nl := String (ascii_of_N 10) "" in
  let history :=
    fold_left
      (fun context msg =>
         (context ++ msg_role msg ++ ": " ++ msg_content msg ++ nl)%string)
      (rev recent_messages) context_header in
  (history ++ "user: " ++ user_message ++ nl ++ "assistant:")%string.

(** [random.choice(supportive_responses)] *)
Definition fallback : Prog string :=
  call (RandomChoice supportive_responses).

(** Lines 288-322: the completion call when an API key is configured, the
    canned responses otherwise and after any failure. *)
Definition after_triage (api_key : option string) (user_message : string)
    (session_id : Z) : Prog string :=
  if truthy api_key then
    recent <- call (RecentMessages session_id 10) ;;
    match recent with
    | None => fallback
    | Some recent_messages =>
        let context := build_context recent_messages user_message in
        response <- call (ChatCompletionCreate
          {| model := "gpt-3.5-turbo";
             messages := [("system", system_prompt); ("user", user_message)];
             max_tokens := 200;
             temperature := (7, 10) |}) ;;
        match response with
        | None => fallback
        | Some content => Ret (strip content)
        end
    end
  else fallback.

Definition generate_ai_response (api_key : option string)
    (user_message : string) (session_id : Z) : Prog string :=
  let user_message_lower := lower user_message in
  if any_in crisis_keywords user_message_lower then
    Ret crisis_response
  else if any_in anxiety_keywords user_message_lower then
    Ret anxiety_response
  else if any_in depression_keywords user_message_lower then
    Ret depression_response
  else
    after_triage api_key user_message session_id.

(** The message, lowercased, contains one of the keywords. *)
Definition mentions (keywords : list string) (user_message : string) : Prop :=
  any_in keywords (lower user_message) = true.

(** The tier of a message in the words of the design: the first tier, in
    the order crisis, anxiety, depression, one of whose keywords the
    lowercased message contains. *)
Definition severity_tier (user_message : string) : option Tier :=
  find (fun t => any_in (keywords_of t) (lower user_message)) tiers.

(** Two messages that lowercasing identifies. *)
Definition same_up_to_case (m m' : string) : Prop := lower m = lower m'.

(** *** Properties of the responder *)

Lemma calls_openai_Ret {A} (a : A) : ~ calls_openai (Ret a).
Proof. inversion 1. Qed.

Lemma after_triage_not_Ret api_key user_message session_id r :
  after_triage api_key user_message session_id <> Ret r.
Proof. unfold after_triage, fallback. by destruct (truthy api_key). Qed.

(** The conditional chain of [generate_ai_response] computes
    [severity_tier] and answers with that tier's response. *)
Lemma generate_ai_response_tier api_key user_message session_id :
  generate_ai_response api_key user_message session_id =
  match severity_tier user_message with
  | Some t => Ret (safety_response t)
  | None => after_triage api_key user_message session_id
  end.
Proof.
  unfold generate_ai_response, severity_tier, tiers.
  cbn [find keywords_of safety_response]. cbv zeta.
  destruct (any_in crisis_keywords _); [done|].
  destruct (any_in anxiety_keywords _); [done|].
  by destruct (any_in depression_keywords _).
Qed.

Lemma severity_tier_Some user_message t :
  severity_tier user_message = Some t -> mentions (keywords_of t) user_message.
Proof. unfold severity_tier, mentions. intros H. by apply find_some in H as [_ H]. Qed.

Lemma severity_tier_None user_message :
  severity_tier user_message = None <->
  forall t, ~ mentions (keywords_of t) user_message.
Proof.
  unfold severity_tier, mentions. split.
  - intros H t Ht.
    assert (In t tiers) as Hin by (destruct t; simpl; tauto).
    apply (find_none _ _ H) in Hin. congruence.
  - intros H. destruct (find _ tiers) as [t|] eqn:E; [|done].
    apply find_some in E as [_ E]. by destruct (H t).
Qed.

Lemma severity_tier_lower m m' :
  same_up_to_case m m' -> severity_tier m = severity_tier m'.
Proof. unfold same_up_to_case, severity_tier. by intros ->. Qed.

(** C1. The tiers are tried in the order crisis, anxiety, depression and
    the first one that matches decides the answer: a message with a crisis
    keyword gets the crisis response whatever else it contains; without a
    crisis keyword but with an anxiety keyword it gets the anxiety
    response; with a depression keyword only, the depression response. *)
Theorem triage_tier_order api_key user_message session_id :
  (mentions crisis_keywords user_message ->
   generate_ai_response api_key user_message session_id = Ret crisis_response) /\
  (~ mentions crisis_keywords user_message ->
   mentions anxiety_keywords user_message ->
   generate_ai_response api_key user_message session_id = Ret anxiety_response) /\
  (~ mentions crisis_keywords user_message ->
   ~ mentions anxiety_keywords user_message ->
   mentions depression_keywords user_message ->
   generate_ai_response api_key user_message session_id = Ret depression_response).
Proof.
  unfold mentions, generate_ai_response. cbv zeta.
  destruct (any_in crisis_keywords _); [by repeat split|].
  destruct (any_in anxiety_keywords _); [by repeat split|].
  destruct (any_in depression_keywords _); by repeat split.
Qed.

(** C2. A message with a keyword of any tier is answered with the fixed
    response of a tier it matches, by a program that makes no call at all,
    so never the completion call; a program that reaches the completion
    call was given a message matching no keyword of any tier. *)
Theorem triage_short_circuits api_key user_message session_id :
  (forall t, mentions (keywords_of t) user_message ->
     (exists t', mentions (keywords_of t') user_message /\
        generate_ai_response api_key user_message session_id =
          Ret (safety_response t')) /\
     ~ calls_openai (generate_ai_response api_key user_message session_id) /\
     forall w, (run w (generate_ai_response api_key user_message session_id)).2 = []) /\
  (calls_openai (generate_ai_response api_key user_message session_id) ->
   forall t, ~ mentions (keywords_of t) user_message).
Proof.
  rewrite generate_ai_response_tier.
  destruct (severity_tier user_message) as [t'|] eqn:E.
  - split.
    + intros _ _. split; [|split].
      * exists t'. split; [by apply severity_tier_Some | done].
      * apply calls_openai_Ret.
      * done.
    + intros H. by apply calls_openai_Ret in H.
  - pose proof (proj1 (severity_tier_None _) E) as Hn. split.
    + intros t Ht. by destruct (Hn t).
    + intros _. exact Hn.
Qed.

End Responder.

(** Every run that logs a completion event comes from a program that
    reaches the completion call. *)
Lemma run_completion_calls {A} (w : World) (p : Prog A) :
  existsb is_completion (run w p).2 = true -> calls_openai p.
Proof.
  induction p as [a|X c k IH]; simpl; [done|].
  destruct (answer w c) as [x e] eqn:Ea.
  destruct (run w (k x)) as [a log] eqn:Er. simpl.
  destruct c; simpl in Ea; injection Ea as <- <-; simpl.
  - intros H. eapply calls_later. apply IH. by rewrite Er.
  - intros _. constructor.
  - intros H. eapply calls_later. apply IH. by rewrite Er.
Qed.

(** With ASCII lowercasing, messages that differ by the case of their
    letters have the same tier. *)
Lemma triage_ascii_case_variant m m' :
  case_variant m m' ->
  severity_tier ascii_lower m = severity_tier ascii_lower m'.
Proof. intros H. apply severity_tier_lower. by apply case_variant_lower. Qed.

(** What is assumed of [str.lower] for C9: the case of one ASCII letter
    does not show in the lowercased text, wherever the letter stands. *)
Definition ignores_ascii_case (lower : string -> string) : Prop :=
  forall pre a b post,
    same_letter a b ->
    lower (pre ++ String a post)%string = lower (pre ++ String b post)%string.

(** Equal up to letter case, in the words of the design: the same text
    once the case of its letters is set aside.  The letters are those of
    ASCII and the long s, [ſ] (U+017F, the bytes C5 BF), a small letter
    whose capital is [S]. *)
Inductive caseless_eq : string -> string -> Prop :=
| ce_nil : caseless_eq EmptyString EmptyString
| ce_cons a b s t :
    same_letter a b -> caseless_eq s t ->
    caseless_eq (String a s) (String b t)
| ce_long_s_left b s t :
    same_letter "s" b -> caseless_eq s t ->
    caseless_eq ("ſ" ++ s)%string (String b t)
| ce_long_s_right a s t :
    same_letter a "s" -> caseless_eq s t ->
    caseless_eq (String a s) ("ſ" ++ t)%string.

Lemma append_snoc pre a (s : string) :
  ((pre ++ String a EmptyString) ++ s)%string = (pre ++ String a s)%string.
Proof.
  induction pre as [|c pre IH]; [done|].
  rewrite !append_String. by rewrite IH.
Qed.

Lemma lower_case_variant lower pre m m' :
  ignores_ascii_case lower -> case_variant m m' ->
  lower (pre ++ m)%string = lower (pre ++ m')%string.
Proof.
  intros Hlaw Hcv. revert pre.
  induction Hcv as [|a b s t Hab _ IH]; intros pre; [done|].
  rewrite (Hlaw pre a b s Hab).
  rewrite <- (append_snoc pre b s), <- (append_snoc pre b t). apply IH.
Qed.

Lemma ascii_lower_ignores_case : ignores_ascii_case ascii_lower.
Proof.
  intros pre a b post Hab.
  induction pre as [|c pre IH]; rewrite ?append_Empty, ?append_String; cbn.
  - by rewrite Hab.
  - by rewrite IH.
Qed.

(** C9, as the code has it.  Classification ignores the case of the
    letters of ASCII: two messages that differ only by the case of such
    letters are assigned the same tier, and one gets a tier's fixed
    response exactly when the other does. *)
Theorem triage_ascii_case_insensitive lower strip m m' :
  ignores_ascii_case lower -> case_variant m m' ->
  severity_tier lower m = severity_tier lower m' /\
  forall api_key session_id api_key' session_id' t,
    generate_ai_response lower strip api_key m session_id
      = Ret (safety_response t) <->
    generate_ai_response lower strip api_key' m' session_id'
      = Ret (safety_response t).
Proof.
  intros Hlaw Hcv.
  assert (severity_tier lower m = severity_tier lower m') as H.
  { apply severity_tier_lower. unfold same_up_to_case.
    apply (lower_case_variant lower EmptyString m m' Hlaw Hcv). }
  split; [done|].
  intros k s k' s' t. rewrite !generate_ai_response_tier, H.
  destruct (severity_tier lower m') as [t0|]; [done|].
  split; intros E; by apply after_triage_not_Ret in E.
Qed.

(** The long s is a small letter, so [str.lower] leaves it as it is, and
    it maps the two messages below as [ascii_lower] does.  They are equal
    up to letter case, and only the one written in capitals falls in a
    tier. *)
Lemma long_s_changes_tier :
  caseless_eq "so ſad" "SO SAD" /\
  ascii_lower "so ſad" = "so ſad" /\
  ascii_lower "SO SAD" = "so sad" /\
  severity_tier ascii_lower "so ſad" = None /\
  severity_tier ascii_lower "SO SAD" = Some Depression.
Proof.
  split_and!; try reflexivity.
  apply ce_cons; [reflexivity|]. apply ce_cons; [reflexivity|].
  apply ce_cons; [reflexivity|].
  apply (ce_long_s_left "S" "ad" "AD"); [reflexivity|].
  apply ce_cons; [reflexivity|]. apply ce_cons; [reflexivity|].
  apply ce_nil.
Qed.

Example crisis_outranks_the_rest :
  generate_ai_response ascii_lower id (Some "sk-test")
    "I feel SAD and anxious. I want to Die." 7 = Ret crisis_response.
Proof. reflexivity. Qed.

(** Keywords match inside words too. *)
Example keyword_inside_a_word :
  generate_ai_response ascii_lower id (Some "sk-test")
    "I started a new diet" 7 = Ret crisis_response.
Proof. reflexivity. Qed.

Example no_keyword_calls_openai :
  (run {| w_recent := fun _ _ => Some [];
          w_completion := fun _ => Some " Hello! ";
          w_choice := fun l => hd "" l |}
       (generate_ai_response ascii_lower id (Some "sk-test") "Good morning" 7))
  = (" Hello! ",
     [EvRecentMessages 7;
      EvChatCompletion
        {| model := "gpt-3.5-turbo";
           messages := [("system", system_prompt); ("user", "Good morning")];
           max_tokens := 200;
           temperature := (7, 10) |}]).
Proof. reflexivity. Qed.

Lemma triage_tier_order_witness :
  generate_ai_response ascii_lower id (Some "sk-test")
    "Sad and anxious, I want to DIE" 7 = Ret crisis_response /\
  generate_ai_response ascii_lower id (Some "sk-test")
    "Sad and ANXIOUS today" 7 = Ret anxiety_response /\
  generate_ai_response ascii_lower id (Some "sk-test")
    "so Lonely" 7 = Ret depression_response.
Proof.
  split; [|split].
  - apply (proj1 (triage_tier_order ascii_lower id (Some "sk-test")
                    "Sad and anxious, I want to DIE" 7)).
    reflexivity.
  - apply (proj1 (proj2 (triage_tier_order ascii_lower id (Some "sk-test")
                    "Sad and ANXIOUS today" 7))).
    + intros H. vm_compute in H. discriminate H.
    + reflexivity.
  - apply (proj2 (proj2 (triage_tier_order ascii_lower id (Some "sk-test")
                    "so Lonely" 7))).
    + intros H. vm_compute in H. discriminate H.
    + intros H. vm_compute in H. discriminate H.
    + reflexivity.
Defined.

Lemma triage_short_circuits_witness :
  ~ calls_openai (generate_ai_response ascii_lower id (Some "sk-test")
                    "I am so WORRIED" 7) /\
  forall t, ~ mentions ascii_lower (keywords_of t) "Good morning".
Proof.
  split.
  - apply (proj1 (triage_short_circuits ascii_lower id (Some "sk-test")
                    "I am so WORRIED" 7) Anxiety).
    reflexivity.
  - apply (proj2 (triage_short_circuits ascii_lower id (Some "sk-test")
                    "Good morning" 7)).
    apply (calls_later _ _ _ (Some [])). apply calls_here.
Defined.

Lemma triage_ascii_case_insensitive_witness :
  severity_tier ascii_lower "I am SAD" = severity_tier ascii_lower "i AM sad".
Proof.
  apply (triage_ascii_case_insensitive ascii_lower id "I am SAD" "i AM sad").
  - apply ascii_lower_ignores_case.
  - repeat (apply cv_cons; [reflexivity|]). apply cv_nil.
Defined.

End Chat.

(** ** Bearer tokens ([app/utils/utils.py], [app/core/config.py]) *)

Module Tokens.

(** A claim value as it travels in a token: text or a number.  An instant
    is the number of microseconds it counts. *)
Inductive Claim := CStr (s : string) | CNum (z : Z).

#[global] Instance Claim_eq_dec : EqDecision Claim.
Proof. solve_decision. Defined.

Abbreviation Claims := (gmap string Claim).

(** [timedelta(minutes=n)], [timedelta(hours=n)] *)
Definition minutes (n : Z) : Z := n * 60 * 1000000.
Definition hours (n : Z) : Z := n * 3600 * 1000000.

Definition ALGORITHM : string := "HS256".
Definition ACCESS_TOKEN_EXPIRE_MINUTES : Z := 30.

(** [expires_delta or default]: [None] and [timedelta(0)] are false. *)
Definition delta_or (expires_delta : option Z) (default : Z) : Z :=
  match expires_delta with
  | None => default
  | Some d => if d =? 0 then default else d
  end.

(** The whole seconds of an instant: a token carries its expiry as a
    number of seconds, the microseconds dropped. *)
Definition seconds (t : Z) : Z := t / 1000000.

(** The payload as [jwt.encode] writes it: the instant under ["exp"]
    becomes its whole seconds. *)
Definition as_encoded (c : Claims) : Claims :=
  match c !! "exp" with
  | Some (CNum e) => <["exp" := CNum (seconds e)]> c
  | _ => c
  end.

(** The registered claims, other than the expiry and the subject, that the
    packages check when they decode. *)
Definition validated_claims : list string :=
  ["nbf"; "iat"; "aud"; "iss"; "jti"; "at_hash"].

(** A payload that holds none of them, and whose subject, if it has one,
    is text. *)
Definition plain (c : Claims) : Prop :=
  (forall k, k ∈ validated_claims -> c !! k = None) /\
  (forall v, c !! "sub" = Some v -> exists s, v = CStr s).

(** The claims carry an expiry, in seconds, that [now] has reached: the
    test of PyJWT, [exp <= now]. *)
Definition expired (c : Claims) (now : Z) : Prop :=
  exists e, c !! "exp" = Some (CNum e) /\ e * 1000000 <= now.

(** The test of python-jose, [exp < now] on whole seconds: the second of
    the expiry is still accepted. *)
Definition jose_expired (c : Claims) (now : Z) : Prop :=
  exists e, c !! "exp" = Some (CNum e) /\ (e + 1) * 1000000 <= now.

(** The two JWT packages.  [jwt_encode] and [jwt_decode] are PyJWT's
    [jwt.encode] and [jwt.decode], which utils.py imports; [jose_decode] is
    the [jwt.decode] of python-jose, which users.py imports.  A decoder
    answers [None] when it raises its error class; [jwt_claims] is the
    payload a token carries, verified or not; [jwt_signed tok key alg]
    holds when the signature of [tok] verifies under [key] and [alg]. *)
Class JWT (Token : Type) := {
  jwt_encode : Claims -> string -> string -> Token;
  jwt_decode : Token -> string -> list string -> Z -> option Claims;
  jose_decode : Token -> string -> list string -> Z -> option Claims;
  jwt_claims : Token -> option Claims;
  jwt_signed : Token -> string -> string -> Prop
}.

(** What the handlers rely on, for tokens signed with [ALGORITHM].  A
    token made of a plain payload decodes, until its expiry, to that
    payload with the expiry in whole seconds; PyJWT refuses it from the
    first instant of the second of expiry on, python-jose from the second
    after.  Nothing decodes that is expired, and PyJWT decodes nothing
    whose signature does not verify. *)
Class JWTLaws (Token : Type) `{JWT Token} := {
  jwt_roundtrip c key now e :
    plain c -> c !! "exp" = Some (CNum e) -> now < seconds e * 1000000 ->
    jwt_decode (jwt_encode c key ALGORITHM) key [ALGORITHM] now
    = Some (as_encoded c);
  jwt_decode_signed tok key algs now c :
    jwt_decode tok key algs now = Some c ->
    exists alg, alg ∈ algs /\ jwt_signed tok key alg;
  jwt_decode_fresh tok key algs now c :
    jwt_decode tok key algs now = Some c ->
    jwt_claims tok = Some c /\ ~ expired c now;
  jose_roundtrip c key now e :
    plain c -> c !! "exp" = Some (CNum e) ->
    now < (seconds e + 1) * 1000000 ->
    jose_decode (jwt_encode c key ALGORITHM) key [ALGORITHM] now
    = Some (as_encoded c);
  jose_decode_fresh tok key algs now c :
    jose_decode tok key algs now = Some c ->
    jwt_claims tok = Some c /\ ~ jose_expired c now
}.

(** A codec in which a token is its payload next to the key and algorithm
    that signed it.  It meets the laws and runs the examples. *)
Record RefToken := { rt_claims : Claims; rt_key : string; rt_alg : string }.

(** Decoding under a deadline: [grace] is the number of seconds past the
    expiry during which the token is still taken. *)
Definition ref_decode_within (grace : Z) (tok : RefToken) (key : string)
    (algs : list string) (now : Z) : option Claims :=
  if bool_decide (rt_key tok = key /\ rt_alg tok ∈ algs) then
    match rt_claims tok !! "exp" with
    | Some (CNum e) =>
        if now <? (e + grace) * 1000000 then Some (rt_claims tok) else None
    | Some (CStr _) => None
    | None => Some (rt_claims tok)
    end
  else None.

Definition ref_decode := ref_decode_within 0.

(** python-jose also refuses a subject that is not text. *)
Definition ref_jose_decode (tok : RefToken) (key : string)
    (algs : list string) (now : Z) : option Claims :=
  match rt_claims tok !! "sub" with
  | Some (CNum _) => None
  | _ => ref_decode_within 1 tok key algs now
  end.

#[export] Instance ref_jwt : JWT RefToken := {|
  jwt_encode c key alg :=
    {| rt_claims := as_encoded c; rt_key := key; rt_alg := alg |};
  jwt_decode := ref_decode;
  jose_decode := ref_jose_decode;
  jwt_claims tok := Some (rt_claims tok);
  jwt_signed tok key alg := rt_key tok = key /\ rt_alg tok = alg
|}.

Lemma as_encoded_exp (c : Claims) e :
  c !! "exp" = Some (CNum e) ->
  as_encoded c = <["exp" := CNum (seconds e)]> c.
Proof. intros He. unfold as_encoded. by rewrite He. Qed.

Lemma as_encoded_lookup_exp (c : Claims) e :
  c !! "exp" = Some (CNum e) ->
  as_encoded c !! "exp" = Some (CNum (seconds e)).
Proof. intros He. rewrite (as_encoded_exp c e He). apply lookup_insert_eq. Qed.

Lemma as_encoded_lookup_other (c : Claims) k :
  k <> "exp" -> as_encoded c !! k = c !! k.
Proof.
  intros Hk. unfold as_encoded.
  destruct (c !! "exp") as [[s|e]|]; [done | | done].
  by apply lookup_insert_ne.
Qed.

Lemma ref_decode_within_encode grace (c : Claims) key alg now e :
  c !! "exp" = Some (CNum e) -> now < (seconds e + grace) * 1000000 ->
  ref_decode_within grace
    {| rt_claims := as_encoded c; rt_key := key; rt_alg := alg |}
    key [alg] now = Some (as_encoded c).
Proof.
  intros He Hlt. unfold ref_decode_within. cbn.
  rewrite bool_decide_eq_true_2
    by (split; [done | by apply list_elem_of_singleton]).
  rewrite (as_encoded_lookup_exp c e He).
  destruct (Z.ltb_spec now ((seconds e + grace) * 1000000)); [done | lia].
Qed.

Lemma ref_decode_within_fresh grace tok key algs now c :
  ref_decode_within grace tok key algs now = Some c ->
  c = rt_claims tok /\
  forall e, c !! "exp" = Some (CNum e) -> now < (e + grace) * 1000000.
Proof.
  unfold ref_decode_within. case_bool_decide as Hd; [|done].
  destruct (rt_claims tok !! "exp") as [[s|e]|] eqn:E.
  - done.
  - destruct (Z.ltb_spec now ((e + grace) * 1000000)); [|done].
    intros [= <-]. split; [done|]. intros e' He'. rewrite E in He'.
    by injection He' as <-.
  - intros [= <-]. split; [done|]. intros e' He'. congruence.
Qed.

#[export] Instance ref_jwt_laws : JWTLaws RefToken.
Proof.
  split.
  - intros c key now e _ He Hlt. cbn. unfold ref_decode.
    apply (ref_decode_within_encode 0 c key ALGORITHM now e He). lia.
  - intros tok key algs now c. cbn. unfold ref_decode, ref_decode_within.
    case_bool_decide as Hd; [|done]. intros _.
    exists (rt_alg tok). destruct Hd as [Hk Ha]. by split.
  - intros tok key algs now c. cbn. unfold ref_decode.
    intros [-> Hf]%ref_decode_within_fresh. split; [done|].
    intros [e [He Hle]]. specialize (Hf e He). lia.
  - intros c key now e [_ Hsub] He Hlt. cbn. unfold ref_jose_decode. cbn.
    rewrite as_encoded_lookup_other by done.
    destruct (c !! "sub") as [[s|z]|] eqn:Es.
    + by apply (ref_decode_within_encode 1 c key ALGORITHM now e He).
    + destruct (Hsub _ eq_refl) as [s Hs]. discriminate.
    + by apply (ref_decode_within_encode 1 c key ALGORITHM now e He).
  - intros tok key algs now c. cbn. unfold ref_jose_decode.
    intros Hd.
    assert (ref_decode_within 1 tok key algs now = Some c) as Hd'.
    { by destruct (rt_claims tok !! "sub") as [[s|z]|]. }
    apply ref_decode_within_fresh in Hd' as [-> Hf]. split; [done|].
    intros [e [He Hle]]. specialize (Hf e He). lia.
Qed.

Section TokenService.

Context {Token : Type} `{JWTLaws Token}.

(** [SECRET_KEY], read from the environment at start-up. *)
Variable SECRET_KEY : string.

(** The dictionary handed to [jwt.encode]: a copy of [data] with ["exp"]
    set. *)
Definition to_encode (now : Z) (data : Claims) (expires_delta : option Z) : Claims :=
  let expire :=
    now + delta_or expires_delta (minutes ACCESS_TOKEN_EXPIRE_MINUTES) in
  <["exp" := CNum expire]> data.

Definition create_access_token (now : Z) (data : Claims)
    (expires_delta : option Z) : Token :=
  let encoded_jwt := jwt_encode (to_encode now data expires_delta) SECRET_KEY ALGORITHM in
  encoded_jwt.

Definition decode_access_token (now : Z) (token : Token) : option Claims :=
  match jwt_decode token SECRET_KEY [ALGORITHM] now with
  | Some payload => Some payload
  | None => None
  end.




(** *** Properties of the token service *)

Lemma to_encode_exp now data expires_delta :
  to_encode now data expires_delta !! "exp" =
  Some (CNum (now + delta_or expires_delta (minutes ACCESS_TOKEN_EXPIRE_MINUTES))).
Proof. unfold to_encode. apply lookup_insert_eq. Qed.

Lemma to_encode_other now data expires_delta k :
  k <> "exp" ->
  to_encode now data expires_delta !! k = data !! k.
Proof. intros Hk. unfold to_encode. by apply lookup_insert_ne. Qed.

Lemma plain_to_encode now data expires_delta :
  plain data -> plain (to_encode now data expires_delta).
Proof.
  intros [Hv Hs]. split.
  - intros k Hk. rewrite to_encode_other; [by apply Hv|].
    intros ->. unfold validated_claims in Hk.
    repeat (apply elem_of_cons in Hk as [Hk | Hk]; [discriminate|]).
    by apply elem_of_nil in Hk.
  - intros v. rewrite to_encode_other by done. apply Hs.
Qed.

Lemma plain_sub s : plain {["sub" := CStr s]}.
Proof.
  split.
  - intros k Hk. apply lookup_singleton_ne. intros <-.
    unfold validated_claims in Hk.
    repeat (apply elem_of_cons in Hk as [Hk | Hk]; [discriminate|]).
    by apply elem_of_nil in Hk.
  - intros v. rewrite lookup_singleton_eq. intros [= <-]. by eexists.
Qed.

(** What is written in the token for [data]: [data] with the expiry in
    whole seconds. *)
Lemma as_encoded_to_encode now data expires_delta :
  as_encoded (to_encode now data expires_delta) =
  <["exp" := CNum (seconds
      (now + delta_or expires_delta (minutes ACCESS_TOKEN_EXPIRE_MINUTES)))]> data.
Proof.
  rewrite (as_encoded_exp _ _ (to_encode_exp now data expires_delta)).
  unfold to_encode. apply insert_insert_eq.
Qed.





End TokenService.

Example tokens_default_lifetime :
  to_encode 1000 {["sub" := CStr "42"]} None !! "exp" = Some (CNum 1800001000).
Proof. by rewrite to_encode_exp. Qed.

(** The token issued at instant 1000 microseconds carries the expiry 1800:
    the seconds of thirty minutes later, the microseconds dropped. *)
Example tokens_expiry_in_seconds :
  as_encoded (to_encode 1000 {["sub" := CStr "42"]} None) !! "exp"
  = Some (CNum 1800).
Proof. by rewrite as_encoded_to_encode, lookup_insert_eq. Qed.



End Tokens.

(** ** Accounts and password reset ([app/routers/users.py]) *)

Module Users.
Import Tokens.

(** The columns of [users] that the handlers below read or write. *)
Record User := {
  id : Z;
  username : string;
  email : string;
  hashed_password : string;
  is_active : bool;
  reset_token : option string;
  reset_token_expires : option Z
}.

#[global] Instance User_eq_dec : EqDecision User.
Proof. solve_decision. Defined.

(** The committed rows of the table, in the order queries return them. *)
Abbreviation DB := (list User).

Record HTTPException := { status_code : Z; detail : string }.

(** How a handler ends: with its response, with an [HTTPException], or
    with any other exception, which the framework answers with a 500. *)
Inductive Outcome (A : Type) : Type :=
| Ok (a : A)
| Raise (e : HTTPException)
| Crash.

Arguments Ok {A} a.
Arguments Raise {A} e.
Arguments Crash {A}.

(** A handler runs against the table and leaves it as its last commit
    made it. *)
Definition Handler (A : Type) : Type := DB -> Outcome A * DB.

#[global] Instance Handler_ret : MRet Handler := fun A a db => (Ok a, db).

#[global] Instance Handler_bind : MBind Handler := fun A B f m db =>
  match m db with
  | (Ok a, db') => f a db'
  | (Raise e, db') => (Raise e, db')
  | (Crash, db') => (Crash, db')
  end.

Definition raise {A} (e : HTTPException) : Handler A := fun db => (Raise e, db).
Definition crash {A} : Handler A := fun db => (Crash, db).

(** [db.query(User).filter(P).first()]: the first row that satisfies [P],
    with its position. *)
Definition first (P : User -> Prop) `{forall u, Decision (P u)} :
    Handler (option (nat * User)) :=
  fun db => (Ok (list_find P db), db).

(** The attribute assignments made on the row at position [i], written by
    [db.commit()]. *)
Definition commit (i : nat) (row : User) : Handler unit :=
  fun db => (Ok tt, <[i := row]> db).

Definition set_reset (u : User) (token : option string) (expires : option Z) : User :=
  {| id := id u; username := username u; email := email u;
     hashed_password := hashed_password u; is_active := is_active u;
     reset_token := token; reset_token_expires := expires |}.

Definition set_password (u : User) (hashed : string) : User :=
  {| id := id u; username := username u; email := email u;
     hashed_password := hashed; is_active := is_active u;
     reset_token := reset_token u;
     reset_token_expires := reset_token_expires u |}.

Definition credentials_exception : HTTPException :=
  {| status_code := 401; detail := "Could not validate credentials" |}.

Definition forgot_message : string :=
  "If an account with that email exists, we’ve sent a reset link.".

Record UserLogin := { login_username : string; login_password : string }.

(** No two rows share an email (the column is declared unique). *)
Definition unique_emails (db : DB) : Prop := NoDup (email <$> db).


(** The condition the handlers apply: the same, with the instant of
    expiry itself still accepted. *)
Definition reset_live (db : DB) (now : Z)
    (email_ token : option string) : Prop :=
  exists u e, u ∈ db /\ Some (email u) = email_ /\ reset_token u = token /\
    reset_token_expires u = Some e /\ now <= e.


Definition fails_with {A} (code : Z) (r : Outcome A * DB) : Prop :=
  exists e, r.1 = Raise e /\ status_code e = code.

(** A small table and stand-ins for the parameters, to run the handlers. *)

Definition alice : User :=
  {| id := 1; username := "alice"; email := "alice@example.org";
     hashed_password := "bcrypt:old"; is_active := true;
     reset_token := Some "tok"; reset_token_expires := Some 100 |}.

Definition bob : User :=
  {| id := 2; username := "bob"; email := "bob@example.org";
     hashed_password := "bcrypt:bob"; is_active := true;
     reset_token := None; reset_token_expires := None |}.

Definition sample_db : DB := [alice; bob].

Definition alice_payload : gmap string string :=
  <["password" := "new"]> (<["token" := "tok"]> {["email" := "alice@example.org"]}).

(** The [bcrypt] package that users.py imports offers [hashpw], [gensalt],
    [checkpw] and [kdf], and no [hash]: evaluating [bcrypt.hash] raises
    [AttributeError], whatever the password. *)
Definition bcrypt_no_hash (password : option string) : option string := None.

(** The keys the database driver can bind: the signed 64-bit integers. *)
Definition in_key_range (z : Z) : bool :=
  (-9223372036854775808 <=? z) && (z <=? 9223372036854775807).

(** Stand-ins for the hashing context and for [int] on decimal digits. *)
Definition sample_verify (password hashed : string) : bool :=
  String.eqb ("bcrypt:" +:+ password) hashed.

Fixpoint decimal_from (acc : Z) (s : string) : option Z :=
  match s with
  | EmptyString => Some acc
  | String c s' =>
      let n := Z.of_N (N_of_ascii c) in
      if (48 <=? n) && (n <=? 57) then decimal_from (10 * acc + (n - 48)) s'
      else None
  end.

Definition sample_int (s : string) : option Z :=
  match s with
  | EmptyString => None
  | _ => decimal_from 0 s
  end.

Section Handlers.

Context {Token : Type} `{JWTLaws Token}.

Variable SECRET_KEY : string.

(** [verify_password] of the hashing context. *)
Variable verify_password : string -> string -> bool.

(** [bcrypt.hash] applied to what [payload.get("password")] gave; [None]
    when the call raises. *)
Variable bcrypt_hash : option string -> option string.

(** [int(s)], [None] for a [ValueError]; and [str(n)]. *)
Variable int_of_str : string -> option Z.
Variable str_of_int : Z -> string.

Record LoginResponse := {
  access_token : Token;
  token_type : string;
  user : User
}.

(** [db.query(User).filter(User.id == user_id).first()].  The driver binds
    [user_id] as a 64-bit integer and raises [OverflowError] for one that
    does not fit.  The keys the table stores all fit, so such a
    [user_id] is the key of no row: the range is tested where no row is
    found. *)
Definition first_by_id (user_id : Z) : Handler (option User) :=
  user ← first (fun u => id u = user_id);
  match user with
  | Some (_, u) => mret (Some u)
  | None => if in_key_range user_id then mret None else crash
  end.

(** The decoder is that of python-jose; [except JWTError] is its [None].
    It refuses a subject that is not text (a [JWTClaimsError], which is a
    [JWTError]), so the subject [int] receives is a string.  The query by
    id stands after the [try]: what it raises is not caught. *)
Definition get_current_user (now : Z) (token : Token) : Handler User :=
  match jose_decode token SECRET_KEY [ALGORITHM] now with
  | None => raise credentials_exception
  | Some payload =>
      match payload !! "sub" with
      | None => raise credentials_exception
      | Some (CNum _) => raise credentials_exception
      | Some (CStr sub) =>
          match int_of_str sub with
          | None => raise credentials_exception
          | Some user_id =>
              user ← first_by_id user_id;
              match user with
              | None => raise credentials_exception
              | Some u => mret u
              end
          end
      end
  end.

(** Answers [None] where the source answers [False]. *)
Definition authenticate_user (name password : string) : Handler (option User) :=
  user ← first (fun u => username u = name \/ email u = name);
  match user with
  | None => mret None
  | Some (_, u) =>
      if negb (verify_password password (hashed_password u)) then mret None
      else mret (Some u)
  end.

Definition login_user (now : Z) (user_credentials : UserLogin) :
    Handler LoginResponse :=
  user ← authenticate_user (login_username user_credentials)
                           (login_password user_credentials);
  match user with
  | None =>
      raise {| status_code := 401; detail := "Incorrect username or password" |}
  | Some u =>
      if negb (is_active u) then
        raise {| status_code := 400; detail := "Inactive user account" |}
      else
        let access_token_expires := minutes 30 in
        let access_token :=
          create_access_token SECRET_KEY now
            {["sub" := CStr (str_of_int (id u))]} (Some access_token_expires) in
        mret {| access_token := access_token; token_type := "bearer"; user := u |}
  end.

(** [uuid4] is the value [str(uuid.uuid4())] drew. *)
Definition forgot_password (now : Z) (uuid4 : string) (payload_email : string) :
    Handler string :=
  user ← first (fun u => email u = payload_email);
  match user with
  | None => mret forgot_message
  | Some (i, u) =>
      let reset_token := uuid4 in
      _ ← commit i (set_reset u (Some reset_token) (Some (now + hours 1)));
      mret forgot_message
  end.

Definition invalid_or_expired : HTTPException :=
  {| status_code := 400; detail := "Invalid or expired token" |}.

(** The request body is a dictionary; a key it lacks reads as [None].
    In the filter, [column == None] selects the rows where the column is
    NULL, so an absent token matches the rows that store none. *)
Definition verify_reset_token (now : Z) (payload : gmap string string) :
    Handler string :=
  let token := payload !! "token" in
  let email_ := payload !! "email" in
  user ← first (fun u => Some (email u) = email_ /\ reset_token u = token);
  match user with
  | None => raise invalid_or_expired
  | Some (_, u) =>
      match reset_token_expires u with
      | None => raise invalid_or_expired
      | Some expires =>
          if expires <? now then raise invalid_or_expired
          else mret "Token is valid"
      end
  end.

Definition reset_password (now : Z) (payload : gmap string string) :
    Handler string :=
  let token := payload !! "token" in
  let email_ := payload !! "email" in
  let new_password := payload !! "password" in
  user ← first (fun u => Some (email u) = email_ /\ reset_token u = token);
  match user with
  | None => raise invalid_or_expired
  | Some (i, u) =>
      match reset_token_expires u with
      | None => raise invalid_or_expired
      | Some expires =>
          if expires <? now then raise invalid_or_expired
          else
            match bcrypt_hash new_password with
            | None => crash
            | Some hashed =>
                _ ← commit i (set_reset (set_password u hashed) None None);
                mret "Password reset successfully"
            end
      end
  end.

(** *** Properties of the handlers *)

Ltac run_handler :=
  unfold get_current_user, first_by_id, login_user, authenticate_user,
    forgot_password, verify_reset_token, reset_password, first, commit,
    raise, crash,
    mbind, Handler_bind, mret, Handler_ret in *;
  cbn beta iota zeta in *.

Lemma unique_emails_lookup (db : DB) i j u v :
  unique_emails db -> db !! i = Some u -> db !! j = Some v ->
  email u = email v -> i = j.
Proof.
  intros Hnd Hi Hj Heq. eapply (NoDup_lookup _ i j (email u) Hnd).
  - by rewrite list_lookup_fmap, Hi.
  - by rewrite list_lookup_fmap, Hj, Heq.
Qed.

Lemma unique_emails_elem (db : DB) u v :
  unique_emails db -> u ∈ db -> v ∈ db -> email u = email v -> u = v.
Proof.
  intros Hnd [i Hi]%list_elem_of_lookup [j Hj]%list_elem_of_lookup Heq.
  assert (i = j) as -> by eauto using unique_emails_lookup. congruence.
Qed.

(** A query that pins the email down finds the row that holds it. *)
Lemma first_unique (P : User -> Prop) `{forall u, Decision (P u)} (db : DB) i u :
  unique_emails db -> db !! i = Some u -> P u ->
  (forall v, P v -> email v = email u) ->
  list_find P db = Some (i, u).
Proof.
  intros Hnd Hi HP Hmail. apply list_find_Some. split_and!; [done..|].
  intros j y Hj Hlt HPy.
  assert (j = i) by eauto using unique_emails_lookup. lia.
Qed.

Lemma unique_emails_insert (db : DB) i u u' :
  unique_emails db -> db !! i = Some u -> email u' = email u ->
  unique_emails (<[i := u']> db).
Proof.
  unfold unique_emails. intros Hnd Hi Heq.
  rewrite list_fmap_insert, Heq.
  rewrite list_insert_id; [done|]. by rewrite list_lookup_fmap, Hi.
Qed.

(** The guard shared by [verify_reset_token] and [reset_password] lets a
    request through exactly when [reset_live] holds. *)
Lemma reset_guard (db : DB) now email_ token :
  unique_emails db ->
  reset_live db now email_ token <->
  exists i u e,
    list_find (fun u => Some (email u) = email_ /\ reset_token u = token) db
      = Some (i, u) /\
    reset_token_expires u = Some e /\ (e <? now) = false.
Proof.
  intros Hnd. split.
  - intros (u & e & [i Hi]%list_elem_of_lookup & Hmail & Htok & Hexp & Hle).
    exists i, u, e. split_and!; [|done|lia].
    apply first_unique; [done..|]. intros v [Hv _]. congruence.
  - intros (i & u & e & (Hi & [Hmail Htok] & _)%list_find_Some & Hexp & Hle).
    exists u, e. split_and!; [|done..|lia].
    apply list_elem_of_lookup. eauto.
Qed.

Lemma verify_reset_token_db now payload (db : DB) :
  (verify_reset_token now payload db).2 = db.
Proof.
  run_handler. destruct (list_find _ db) as [[i u]|]; [|done].
  destruct (reset_token_expires u) as [e|]; [|done].
  by destruct (e <? now).
Qed.

Lemma verify_reset_token_live now payload (db : DB) :
  unique_emails db ->
  reset_live db now (payload !! "email") (payload !! "token") ->
  verify_reset_token now payload db = (Ok "Token is valid", db).
Proof.
  intros Hnd (i & u & e & Hf & He & Hlt)%reset_guard; [|done].
  run_handler. by rewrite Hf, He, Hlt.
Qed.

Lemma verify_reset_token_rejects now payload (db : DB) :
  unique_emails db ->
  ~ reset_live db now (payload !! "email") (payload !! "token") ->
  verify_reset_token now payload db = (Raise invalid_or_expired, db).
Proof.
  intros Hnd Hn. rewrite reset_guard in Hn by done. run_handler.
  destruct (list_find _ db) as [[i u]|] eqn:Hf; [|done].
  destruct (reset_token_expires u) as [e|] eqn:He; [|done].
  destruct (e <? now) eqn:Hlt; [done|].
  destruct Hn. eauto 6.
Qed.

Lemma reset_password_live now payload (db : DB) :
  unique_emails db ->
  reset_live db now (payload !! "email") (payload !! "token") ->
  exists i u,
    db !! i = Some u /\ Some (email u) = payload !! "email" /\
    reset_password now payload db =
    match bcrypt_hash (payload !! "password") with
    | None => (Crash, db)
    | Some hashed =>
        (Ok "Password reset successfully",
         <[i := set_reset (set_password u hashed) None None]> db)
    end.
Proof.
  intros Hnd (i & u & e & Hf & He & Hlt)%reset_guard; [|done].
  exists i, u. pose proof Hf as (Hi & [Hmail _] & _)%list_find_Some.
  split_and!; [done..|].
  run_handler. rewrite Hf, He, Hlt. by destruct (bcrypt_hash _).
Qed.

Lemma reset_password_rejects now payload (db : DB) :
  unique_emails db ->
  ~ reset_live db now (payload !! "email") (payload !! "token") ->
  reset_password now payload db = (Raise invalid_or_expired, db).
Proof.
  intros Hnd Hn. rewrite reset_guard in Hn by done. run_handler.
  destruct (list_find _ db) as [[i u]|] eqn:Hf; [|done].
  destruct (reset_token_expires u) as [e|] eqn:He; [|done].
  destruct (e <? now) eqn:Hlt; [done|].
  destruct Hn. eauto 6.
Qed.



(** C6. For the user that holds the submitted email, [forgot_password]
    stores the freshly drawn token as the row's [reset_token] and the
    instant one hour after the current time as its [reset_token_expires],
    in place of whatever token and expiry were stored; the row keeps its
    other columns and no other row changes. *)
Theorem forgot_password_overwrites (db : DB) now uuid4 payload_email i u :
  unique_emails db -> db !! i = Some u -> email u = payload_email ->
  let r := forgot_password now uuid4 payload_email db in
  r.1 = Ok forgot_message /\
  (exists u',
     r.2 !! i = Some u' /\
     reset_token u' = Some uuid4 /\
     reset_token_expires u' = Some (now + 3600000000) /\
     id u' = id u /\ username u' = username u /\ email u' = email u /\
     hashed_password u' = hashed_password u /\ is_active u' = is_active u) /\
  (forall j, j <> i -> r.2 !! j = db !! j) /\
  length r.2 = length db.
Proof.
  intros Hnd Hi Hmail. run_handler.
  rewrite (first_unique (fun u => email u = payload_email) db i u)
    by (try done; congruence).
  cbn. split_and!.
  - done.
  - eexists. split.
    + apply list_lookup_insert_eq. by eapply lookup_lt_Some.
    + by split_and!.
  - intros j Hj. by apply list_lookup_insert_ne.
  - apply length_insert.
Qed.

(** The failures of authentication that are answered with a 401.  A
    bearer token that does not decode, that has no subject, whose subject
    is not an integer, or whose subject is a key the database can hold
    and the id of no stored user, makes [get_current_user] raise a 401;
    and a login whose name and password verify against no stored user
    makes [login_user] raise a 401. *)
Lemma auth_failures_401 (db : DB) now token user_credentials :
  (jose_decode token SECRET_KEY [ALGORITHM] now = None ->
   fails_with 401 (get_current_user now token db)) /\
  (forall payload,
     jose_decode token SECRET_KEY [ALGORITHM] now = Some payload ->
     payload !! "sub" = None ->
     fails_with 401 (get_current_user now token db)) /\
  (forall payload sub,
     jose_decode token SECRET_KEY [ALGORITHM] now = Some payload ->
     payload !! "sub" = Some (CStr sub) -> int_of_str sub = None ->
     fails_with 401 (get_current_user now token db)) /\
  (forall payload sub user_id,
     jose_decode token SECRET_KEY [ALGORITHM] now = Some payload ->
     payload !! "sub" = Some (CStr sub) -> int_of_str sub = Some user_id ->
     in_key_range user_id = true ->
     (forall u, u ∈ db -> id u <> user_id) ->
     fails_with 401 (get_current_user now token db)) /\
  ((forall u, u ∈ db ->
      username u = login_username user_credentials \/
      email u = login_username user_credentials ->
      verify_password (login_password user_credentials) (hashed_password u)
        = false) ->
   fails_with 401 (login_user now user_credentials db)).
Proof.
  unfold fails_with. split_and!.
  - intros Hd. run_handler. rewrite Hd. by eexists.
  - intros payload Hd Hs. run_handler. rewrite Hd, Hs. by eexists.
  - intros payload sub Hd Hs Hint. run_handler. rewrite Hd, Hs, Hint.
    by eexists.
  - intros payload sub user_id Hd Hs Hint Hr Hno. run_handler.
    rewrite Hd, Hs, Hint. cbn.
    rewrite (proj2 (list_find_None (fun u => id u = user_id) db)).
    + rewrite Hr. by eexists.
    + apply Forall_forall. exact Hno.
  - intros Hno. run_handler.
    destruct (list_find _ db) as [[i u]|] eqn:Hf.
    + apply list_find_Some in Hf as (Hi & HP & _).
      rewrite Hno; [| apply list_elem_of_lookup; eauto | done].
      cbn. by eexists.
    + by eexists.
Qed.

(** A subject that is an integer beyond the keys the database can hold
    is the id of no stored user, and the request ends in the
    [OverflowError] of the query, not in a 401. *)
Lemma get_current_user_overflow (db : DB) now token payload sub user_id :
  jose_decode token SECRET_KEY [ALGORITHM] now = Some payload ->
  payload !! "sub" = Some (CStr sub) -> int_of_str sub = Some user_id ->
  in_key_range user_id = false ->
  (forall u, u ∈ db -> id u <> user_id) ->
  get_current_user now token db = (Crash, db).
Proof.
  intros Hd Hs Hint Hr Hno. run_handler. rewrite Hd, Hs, Hint. cbn.
  rewrite (proj2 (list_find_None (fun u => id u = user_id) db)).
  - by rewrite Hr.
  - apply Forall_forall. exact Hno.
Qed.

(** C8. [forgot_password] answers with the same fixed message whatever
    the table holds, so whether or not the email belongs to an account;
    when it belongs to none the table is left as it was. *)
Theorem forgot_password_non_revealing (db db' : DB) now now' uuid4 uuid4'
    payload_email :
  (forgot_password now uuid4 payload_email db).1 = Ok forgot_message /\
  (forgot_password now uuid4 payload_email db).1 =
    (forgot_password now' uuid4' payload_email db').1 /\
  ((forall u, u ∈ db -> email u <> payload_email) ->
   (forgot_password now uuid4 payload_email db).2 = db).
Proof.
  assert (forall (d : DB) n t,
    (forgot_password n t payload_email d).1 = Ok forgot_message) as Hmsg.
  { intros d n t. run_handler. by destruct (list_find _ d) as [[i u]|]. }
  split_and!.
  - apply Hmsg.
  - by rewrite !Hmsg.
  - intros Hno. run_handler.
    rewrite (proj2 (list_find_None (fun u => email u = payload_email) db)).
    + done.
    + apply Forall_forall. exact Hno.
Qed.


End Handlers.

(** *** The handlers on the sample table *)

Lemma sample_db_unique : unique_emails sample_db.
Proof.
  unfold unique_emails, sample_db. cbn.
  apply NoDup_cons. split; [|apply NoDup_singleton].
  intros Hin. apply list_elem_of_singleton in Hin. discriminate.
Defined.


Lemma alice_payload_token : alice_payload !! "token" = Some "tok".
Proof. reflexivity. Defined.

(** With [bcrypt] as it is imported, a request that passes the check
    ends in the [AttributeError] and leaves the table as it was. *)
Lemma reset_password_no_hash now payload (db : DB) :
  unique_emails db ->
  reset_live db now (payload !! "email") (payload !! "token") ->
  reset_password bcrypt_no_hash now payload db = (Crash, db).
Proof.
  intros Hnd Hl.
  by destruct (reset_password_live bcrypt_no_hash _ _ _ Hnd Hl)
    as (i & u & _ & _ & ->).
Qed.

Example reset_password_raises :
  reset_password bcrypt_no_hash 50 alice_payload sample_db = (Crash, sample_db).
Proof. reflexivity. Qed.

Example forgot_password_unknown_email :
  forgot_password 50 "uuid-1" "nobody@example.org" sample_db =
  (Ok forgot_message, sample_db).
Proof. reflexivity. Qed.



(** C4, at a request that passes the check.  Alice holds the token
    ["tok"], good until instant 100.  At instant 50 [reset_password] with
    her email, that token and a new password ends in the
    [AttributeError] of [bcrypt.hash]: the table is as it was, her row
    still holds the token, its expiry and the old password hash, and at
    instant 60 the same token passes [verify_reset_token] and the check of
    [reset_password] again. *)
Theorem reset_token_not_consumed :
  let r := reset_password bcrypt_no_hash 50 alice_payload sample_db in
  r = (Crash, sample_db) /\
  r.2 !! 0%nat = Some alice /\
  reset_token alice = Some "tok" /\ reset_token_expires alice = Some 100 /\
  verify_reset_token 60 alice_payload r.2 = (Ok "Token is valid", sample_db) /\
  ~ fails_with 400 (reset_password bcrypt_no_hash 60 alice_payload r.2).
Proof.
  cbn zeta. split_and!; try reflexivity.
  intros (e & He & _). discriminate He.
Qed.

Lemma forgot_password_overwrites_witness :
  exists u',
    (forgot_password 50 "uuid-1" "alice@example.org" sample_db).2 !! 0%nat
      = Some u' /\
    reset_token u' = Some "uuid-1" /\
    reset_token_expires u' = Some (50 + 3600000000) /\
    id u' = id alice /\ username u' = username alice /\
    email u' = email alice /\
    hashed_password u' = hashed_password alice /\
    is_active u' = is_active alice.
Proof.
  apply (forgot_password_overwrites sample_db 50 "uuid-1" "alice@example.org"
           0%nat alice sample_db_unique eq_refl eq_refl).
Defined.

Lemma forgot_password_non_revealing_witness :
  (forgot_password 50 "uuid-1" "nobody@example.org" sample_db).2 = sample_db.
Proof.
  apply (forgot_password_non_revealing sample_db [] 50 0 "uuid-1" "uuid-2"
           "nobody@example.org").
  intros u Hin. apply elem_of_cons in Hin as [-> | Hin]; [discriminate|].
  apply list_elem_of_singleton in Hin as ->. discriminate.
Defined.

(** Tokens signed with the key of the service, good until second 20, as
    they are read at instant 10. *)
Definition token_of_subject (sub : string) : RefToken :=
  jwt_encode {["sub" := CStr sub; "exp" := CNum 20000000]} "k" ALGORITHM.

Example unknown_subject_401 :
  get_current_user "k" sample_int 10 (token_of_subject "7") sample_db
  = (Raise credentials_exception, sample_db).
Proof. reflexivity. Qed.

Example non_integer_subject_401 :
  get_current_user "k" sample_int 10 (token_of_subject "abc") sample_db
  = (Raise credentials_exception, sample_db).
Proof. reflexivity. Qed.

Example foreign_key_401 :
  get_current_user (Token := RefToken) "k" sample_int 10
    (jwt_encode {["sub" := CStr "1"; "exp" := CNum 20000000]} "other-key" ALGORITHM)
    sample_db
  = (Raise credentials_exception, sample_db).
Proof. reflexivity. Qed.

Example known_subject_found :
  get_current_user "k" sample_int 10 (token_of_subject "1") sample_db
  = (Ok alice, sample_db).
Proof. reflexivity. Qed.

(** C7, at a subject the database cannot hold.  The token is signed with
    the key of the service, has not expired, and its subject is the
    integer 2^63, the id of no stored user: [int] accepts it, the query
    by id raises [OverflowError] outside the [try], and the request ends
    in that error, which is answered with a 500, where a 401 is due. *)
Theorem huge_subject_not_401 :
  let token := token_of_subject "9223372036854775808" in
  jose_decode token "k" [ALGORITHM] 10
    = Some {["sub" := CStr "9223372036854775808"; "exp" := CNum 20]} /\
  sample_int "9223372036854775808" = Some 9223372036854775808 /\
  (forall u, u ∈ sample_db -> id u <> 9223372036854775808) /\
  get_current_user "k" sample_int 10 token sample_db = (Crash, sample_db) /\
  ~ fails_with 401 (get_current_user "k" sample_int 10 token sample_db).
Proof.
  cbn zeta. split_and!.
  - reflexivity.
  - reflexivity.
  - intros u Hin. apply elem_of_cons in Hin as [-> | Hin]; [discriminate|].
    apply list_elem_of_singleton in Hin as ->. discriminate.
  - reflexivity.
  - intros (e & He & _). discriminate He.
Qed.

End Users.

(** ** The lifetime of an access token *)

Module TokenLife.
Import Tokens.

Section Life.

Context {Token : Type} `{JWTLaws Token}.

Variable SECRET_KEY : string.

Lemma seconds_le (t : Z) : seconds t * 1000000 <= t.
Proof. unfold seconds. pose proof (Z.mul_div_le t 1000000). lia. Qed.

Lemma seconds_lt (t : Z) : t < (seconds t + 1) * 1000000.
Proof.
  unfold seconds. pose proof (Z.mod_pos_bound t 1000000).
  pose proof (Z.div_mod t 1000000). lia.
Qed.

(** The payload a freshly encoded token carries is the one it was made
    of, with the expiry in whole seconds. *)
Lemma jwt_claims_encode (c : Claims) key e :
  plain c -> c !! "exp" = Some (CNum e) ->
  jwt_claims (jwt_encode c key ALGORITHM) = Some (as_encoded c).
Proof using Type*.
  intros Hp He.
  assert (jwt_decode (jwt_encode c key ALGORITHM) key [ALGORITHM]
            (seconds e * 1000000 - 1)
          = Some (as_encoded c)) as Hd.
  { eapply jwt_roundtrip; [done | done | lia]. }
  by apply jwt_decode_fresh in Hd as [Hc _].
Qed.


(** python-jose refuses it from the start of the second after. *)
Lemma jose_expired_refused (c : Claims) key algs now e :
  plain c -> c !! "exp" = Some (CNum e) ->
  (seconds e + 1) * 1000000 <= now ->
  jose_decode (jwt_encode c key ALGORITHM) key algs now = None.
Proof using Type*.
  intros Hp He Hle.
  destruct (jose_decode _ key algs now) as [c'|] eqn:Hd; [|done].
  apply jose_decode_fresh in Hd as [Hc Hfresh].
  rewrite (jwt_claims_encode c key e Hp He) in Hc. injection Hc as <-.
  destruct Hfresh. exists (seconds e). split; [|done].
  by apply as_encoded_lookup_exp.
Qed.


End Life.

Example token_with_negative_delta_is_dead :
  decode_access_token "k" 100
    (create_access_token (Token := RefToken) "k" 100 {["sub" := CStr "1"]} (Some (-5)))
  = None.
Proof. reflexivity. Qed.

(** Issued one microsecond before second 1, for thirty minutes, the token
    carries the expiry 1800 and is refused half a second before the
    thirty minutes are over. *)
Example token_expiry_is_truncated :
  decode_access_token "k" 1799999999
    (create_access_token (Token := RefToken) "k" 999999 {["sub" := CStr "1"]} None)
  = Some {["sub" := CStr "1"; "exp" := CNum 1800]} /\
  decode_access_token "k" 1800500000
    (create_access_token (Token := RefToken) "k" 999999 {["sub" := CStr "1"]} None)
  = None.
Proof. split; reflexivity. Qed.


End TokenLife.

(** ** The other account handlers of [app/routers/users.py] *)

Module Accounts.
Import Tokens Users.

(** The body of a registration request. *)
Record UserCreate := {
  uc_username : string;
  uc_email : string;
  uc_full_name : string;
  uc_password : string
}.

Record APIResponse := {
  success : bool;
  message : string;
  data : gmap string Claim
}.

(** What [db.commit()] makes of an added row: the stored row, or the
    [IntegrityError] of a unique constraint. *)
Inductive Created := Inserted (new_user : User) | IntegrityError.

Definition set_active (u : User) (active : bool) : User :=
  {| id := id u; username := username u; email := email u;
     hashed_password := hashed_password u; is_active := active;
     reset_token := reset_token u;
     reset_token_expires := reset_token_expires u |}.

(** The write of a changed attribute of the row object [current_user]:
    [UPDATE users SET ... WHERE id = uid]. *)
Definition update_row (uid : Z) (f : User -> User) : Handler unit :=
  fun db => (Ok tt, (fun v => if decide (id v = uid) then f v else v) <$> db).

(** The unique constraints of the table besides the one on [email]. *)
Definition unique_usernames (db : DB) : Prop := NoDup (username <$> db).
Definition unique_ids (db : DB) : Prop := NoDup (id <$> db).

Definition constraints (db : DB) : Prop :=
  unique_ids db /\ unique_usernames db /\ unique_emails db.

(** Some row holds the email or the username. *)
Definition taken (db : DB) (name mail : string) : Prop :=
  Exists (fun u => email u = mail \/ username u = name) db.

Definition inactive_exception : HTTPException :=
  {| status_code := 400; detail := "Inactive user account" |}.

Definition get_current_active_user (current_user : User) : Handler User :=
  if negb (is_active current_user) then raise inactive_exception
  else mret current_user.

(** [string.ascii_letters + string.digits] *)
Definition alphabet : string :=
  "abcdefghijklmnopqrstuvwxyzABCDEFGHIJKLMNOPQRSTUVWXYZ0123456789".

(** [generate_token_expiry], with [datetime.now()] as [now]. *)
Definition generate_token_expiry (now : Z) (hours_ : Z) : Z := now + hours hours_.

Section MoreHandlers.

Context {Token : Type} `{JWTLaws Token}.

Variable SECRET_KEY : string.
Variable verify_password : string -> string -> bool.

(** [hash_password], with the salt the hashing context drew. *)
Variable hash_password : string -> string -> string.

Variable bcrypt_hash : option string -> option string.
Variable int_of_str : string -> option Z.
Variable str_of_int : Z -> string.

(** [str.capitalize] of the runtime. *)
Variable capitalize : string -> string.

(** [secrets.choice(seq)] at its [k]-th call: an element of [seq]. *)
Variable secrets_choice : nat -> list ascii -> ascii.

(** A request carrying [token], through [Depends(get_current_active_user)]. *)
Definition current_active_user (now : Z) (token : Token) : Handler User :=
  current_user ← get_current_user SECRET_KEY int_of_str now token;
  get_current_active_user current_user.

(** [new_id] is the primary key the database assigns to the row; the row
    is stored after the rows already there. *)
Definition create_user (new_id : Z) (salt : string) (user_data : UserCreate) :
    Handler Created :=
  fun db =>
    let new_user :=
      {| id := new_id;
         username := uc_username user_data;
         email := uc_email user_data;
         hashed_password := hash_password salt (uc_password user_data);
         is_active := true;
         reset_token := None;
         reset_token_expires := None |} in
    if bool_decide (Exists (fun u => username u = username new_user \/
                                     email u = email new_user) db)
    then (Ok IntegrityError, db)
    else (Ok (Inserted new_user), (db ++ [new_user])%list).

Definition register_user (now : Z) (new_id : Z) (salt : string)
    (user_data : UserCreate) : Handler (LoginResponse (Token := Token)) :=
  existing_user ← first (fun u => email u = uc_email user_data \/
                                  username u = uc_username user_data);
  match existing_user with
  | Some (_, existing) =>
      if decide (email existing = uc_email user_data) then
        raise {| status_code := 400; detail := "Email already registered" |}
      else
        raise {| status_code := 400; detail := "Username already taken" |}
  | None =>
      created ← create_user new_id salt
        {| uc_username := uc_username user_data;
           uc_email := uc_email user_data;
           uc_full_name := uc_full_name user_data;
           uc_password := uc_password user_data |};
      match created with
      | IntegrityError =>
          raise {| status_code := 400;
                   detail := "User registration failed due to data constraints" |}
      | Inserted new_user =>
          let access_token_expires := minutes 30 in
          let access_token :=
            create_access_token SECRET_KEY now
              {["sub" := CStr (str_of_int (id new_user))]}
              (Some access_token_expires) in
          mret {| access_token := access_token; token_type := "bearer";
                  user := new_user |}
      end
  end.

Definition delete_user_account (current_user : User) : Handler APIResponse :=
  _ ← update_row (id current_user) (fun u => set_active u false);
  mret {| success := true;
          message := "Account deactivated successfully";
          data := {["user_id" := CNum (id current_user)]} |}.

Definition logout_user (current_user : User) : Handler APIResponse :=
  mret {| success := true;
          message := "Successfully logged out";
          data := {["user_id" := CNum (id current_user);
                    "username" := CStr (username current_user)]} |}.

(** The [IntegrityError] of [create_user] is not caught here. *)
Definition social_login (now : Z) (new_id : Z) (salt : string)
    (provider token : string) : Handler (LoginResponse (Token := Token)) :=
  if bool_decide (provider ∉ ["google"; "apple"]) then
    raise {| status_code := 400; detail := "Unsupported social login provider" |}
  else
    let mock_user_data :=
      {| uc_username := "social_user_" +:+ provider;
         uc_email := "user@" +:+ provider +:+ ".com";
         uc_full_name := capitalize provider +:+ " User";
         uc_password := "social_login_placeholder" |} in
    found ← first (fun u => email u = uc_email mock_user_data);
    existing_user ←
      match found with
      | Some (_, u) => mret u
      | None =>
          created ← create_user new_id salt mock_user_data;
          match created with
          | IntegrityError => crash
          | Inserted u => mret u
          end
      end;
    let access_token_expires := minutes 30 in
    let access_token :=
      create_access_token SECRET_KEY now
        {["sub" := CStr (str_of_int (id existing_user))]}
        (Some access_token_expires) in
    mret {| access_token := access_token; token_type := "bearer";
            user := existing_user |}.

(** [skip] and [limit] are any integers.  The driver binds them as
    64-bit integers and raises [OverflowError] for one that does not fit,
    which is not caught.  SQLite reads a negative [OFFSET] as none and a
    negative [LIMIT] as no limit; the rows come in table order. *)
Definition get_users (skip limit : Z) (current_user : User) : Handler (list User) :=
  fun db =>
    if in_key_range skip && in_key_range limit then
      let rows :=
        drop (Z.to_nat skip) (filter (fun u => is_active u = true) db) in
      (Ok (if limit <? 0 then rows else take (Z.to_nat limit) rows), db)
    else (Crash, db).

(** [range(length)] is empty for a negative [length]. *)
Definition generate_reset_token (length : Z) : string :=
  string_of_list_ascii
    (map (fun k => secrets_choice k (list_ascii_of_string alphabet))
         (seq 0 (Z.to_nat length))).

(** *** Properties of the account handlers *)

Ltac run_more :=
  unfold current_active_user, register_user, delete_user_account, logout_user,
    social_login, get_users, get_current_active_user, update_row,
    create_user in *;
  unfold get_current_user, first_by_id, login_user, authenticate_user,
    forgot_password, verify_reset_token, reset_password, first, commit,
    raise, crash,
    mbind, Handler_bind, mret, Handler_ret in *;
  cbn beta iota zeta in *.

(** A query on a column with a unique constraint finds the row that holds
    the value. *)
Lemma find_by_key {K} (key : User -> K) (P : User -> Prop)
    `{forall u, Decision (P u)} (db : DB) i u :
  NoDup (key <$> db) -> db !! i = Some u -> P u ->
  (forall v, P v -> key v = key u) ->
  list_find P db = Some (i, u).
Proof using Type.
  intros Hnd Hi HP Hkey. apply list_find_Some. split_and!; [done..|].
  intros j y Hj Hlt HPy.
  assert (j = i); [|lia].
  eapply (NoDup_lookup _ j i (key u) Hnd).
  - by rewrite list_lookup_fmap, Hj, <- (Hkey y HPy).
  - by rewrite list_lookup_fmap, Hi.
Qed.

Lemma taken_find (db : DB) name mail :
  taken db name mail <->
  is_Some (list_find (fun u => email u = mail \/ username u = name) db).
Proof using Type.
  unfold taken. rewrite Exists_exists. split.
  - intros (u & Hin & HP). by eapply list_find_elem_of.
  - intros [[i u] (Hi & HP & _)%list_find_Some]. exists u. split; [|done].
    apply list_elem_of_lookup. eauto.
Qed.

Lemma create_user_free new_id salt d (db : DB) :
  ~ taken db (uc_username d) (uc_email d) ->
  create_user new_id salt d db =
  (Ok (Inserted
         {| id := new_id; username := uc_username d; email := uc_email d;
            hashed_password := hash_password salt (uc_password d);
            is_active := true; reset_token := None;
            reset_token_expires := None |}),
   (db ++ [ {| id := new_id; username := uc_username d; email := uc_email d;
               hashed_password := hash_password salt (uc_password d);
               is_active := true; reset_token := None;
               reset_token_expires := None |} ])%list).
Proof using Type.
  intros Hfree. unfold create_user. cbn.
  rewrite bool_decide_eq_false_2; [done|].
  intros Hex. apply Hfree. unfold taken.
  eapply Exists_impl; [exact Hex|]. cbn. intros x [?|?]; [by right | by left].
Qed.

(** The row a registration stores. *)
Definition registered_row (new_id : Z) (salt : string) (d : UserCreate) : User :=
  {| id := new_id; username := uc_username d; email := uc_email d;
     hashed_password := hash_password salt (uc_password d);
     is_active := true; reset_token := None; reset_token_expires := None |}.

Lemma register_user_free now new_id salt d (db : DB) :
  ~ taken db (uc_username d) (uc_email d) ->
  register_user now new_id salt d db =
  (Ok {| access_token :=
           create_access_token SECRET_KEY now
             {["sub" := CStr (str_of_int new_id)]} (Some (minutes 30));
         token_type := "bearer";
         user := registered_row new_id salt d |},
   (db ++ [registered_row new_id salt d])%list).
Proof using Type.
  intros Hfree. pose proof Hfree as Hnone.
  rewrite taken_find, <- eq_None_not_Some in Hnone.
  pose proof (create_user_free new_id salt d db Hfree) as Hc.
  run_more. rewrite Hnone. cbn.
  destruct d as [n m f pw]. cbn in *. by rewrite Hc.
Qed.



Lemma constraints_snoc (db : DB) r :
  constraints db ->
  (forall u, u ∈ db ->
     id u <> id r /\ username u <> username r /\ email u <> email r) ->
  constraints (db ++ [r])%list.
Proof using Type.
  unfold constraints, unique_ids, unique_usernames, unique_emails.
  intros (Hi & Hn & Hm) Hfresh. rewrite !fmap_app. cbn.
  split_and!; apply NoDup_app; (split_and!; [done| |apply NoDup_singleton]);
    intros x [u [-> Hu]]%list_elem_of_fmap Hx;
    apply list_elem_of_singleton in Hx; destruct (Hfresh u Hu) as (? & ? & ?);
    congruence.
Qed.

Lemma constraints_insert (db : DB) i u u' :
  constraints db -> db !! i = Some u ->
  id u' = id u -> username u' = username u -> email u' = email u ->
  constraints (<[i := u']> db).
Proof using Type.
  unfold constraints, unique_ids, unique_usernames, unique_emails.
  intros (Hi & Hn & Hm) Hlook Eid En Em.
  rewrite !list_fmap_insert, Eid, En, Em.
  rewrite !list_insert_id; [done|..]; by rewrite list_lookup_fmap, Hlook.
Qed.

Lemma constraints_fmap (db : DB) (f : User -> User) :
  (forall u, id (f u) = id u /\ username (f u) = username u /\
             email (f u) = email u) ->
  constraints db -> constraints (f <$> db).
Proof using Type.
  unfold constraints, unique_ids, unique_usernames, unique_emails.
  intros Hf (Hi & Hn & Hm). rewrite <- !list_fmap_compose.
  rewrite (list_fmap_ext (id ∘ f) id db), (list_fmap_ext (username ∘ f) username db),
    (list_fmap_ext (email ∘ f) email db); [done|..];
    intros j u _; cbn; by destruct (Hf u) as (? & ? & ?).
Qed.

Lemma not_taken_fresh (db : DB) name mail u :
  ~ taken db name mail -> u ∈ db -> username u <> name /\ email u <> mail.
Proof using Type.
  unfold taken. rewrite Exists_exists. intros Hn Hin.
  split; intros Heq; apply Hn; exists u; (split; [done|]); [by right | by left].
Qed.

Lemma create_user_constraints new_id salt d (db : DB) :
  constraints db -> (forall u, u ∈ db -> id u <> new_id) ->
  constraints (create_user new_id salt d db).2.
Proof using Type.
  intros Hc Hid. unfold create_user. cbn. case_bool_decide as Hex; [done|].
  cbn. apply constraints_snoc; [done|]. cbn. intros u Hu.
  split_and!; [by apply Hid|..]; intros Heq; apply Hex, Exists_exists;
    exists u; (split; [done|]); [by left | by right].
Qed.

(** Every handler keeps the unique constraints on [id], [username] and
    [email], provided the database assigns a key no row holds; the
    handlers that only read leave the table as it was. *)
Theorem handlers_keep_constraints (db : DB) now new_id salt d uuid4 mail payload
    current_user provider token user_credentials bearer skip limit :
  constraints db -> (forall u, u ∈ db -> id u <> new_id) ->
  constraints (register_user now new_id salt d db).2 /\
  constraints (social_login now new_id salt provider token db).2 /\
  constraints (forgot_password now uuid4 mail db).2 /\
  constraints (reset_password bcrypt_hash now payload db).2 /\
  constraints (delete_user_account current_user db).2 /\
  (verify_reset_token now payload db).2 = db /\
  (login_user SECRET_KEY verify_password str_of_int now user_credentials db).2 = db /\
  (current_active_user now bearer db).2 = db /\
  (logout_user current_user db).2 = db /\
  (get_users skip limit current_user db).2 = db.
Proof using Type.
  intros Hc Hid. split_and!.
  - pose proof (create_user_constraints new_id salt
      {| uc_username := uc_username d; uc_email := uc_email d;
         uc_full_name := uc_full_name d; uc_password := uc_password d |}
      db Hc Hid) as Hcu.
    unfold register_user. unfold first, raise, mbind, Handler_bind, mret,
      Handler_ret. cbn beta iota zeta.
    destruct (list_find _ db) as [[i ex]|]; [by case_decide|].
    destruct (create_user _ _ _ db) as [[[u|]| |] db']; done.
  - pose proof (fun dd => create_user_constraints new_id salt dd db Hc Hid) as Hcu.
    unfold social_login. unfold first, raise, crash, mbind, Handler_bind, mret,
      Handler_ret. cbn beta iota zeta.
    case_bool_decide; [done|].
    destruct (list_find _ db) as [[i ex]|]; [done|].
    match goal with |- context [create_user _ _ ?dd db] =>
      specialize (Hcu dd); destruct (create_user new_id salt dd db)
        as [[[u|]| |] db'] end; done.
  - run_more. destruct (list_find _ db) as [[i u]|] eqn:Hf; [|done].
    apply list_find_Some in Hf as (Hi & _). cbn.
    by eapply constraints_insert.
  - run_more. destruct (list_find _ db) as [[i u]|] eqn:Hf; [|done].
    apply list_find_Some in Hf as (Hi & _).
    destruct (reset_token_expires u) as [e|]; [|done].
    destruct (e <? now); [done|].
    destruct (bcrypt_hash _); [|done]. cbn.
    by eapply constraints_insert.
  - run_more. cbn. apply constraints_fmap; [|done].
    intros u. by case_decide.
  - apply verify_reset_token_db.
  - run_more. destruct (list_find _ db) as [[i u]|]; [|done]. cbn.
    destruct (verify_password _ _); [|done]. cbn.
    by destruct (is_active u).
  - run_more. destruct (jose_decode _ _ _ _) as [c|]; [|done].
    destruct (c !! "sub") as [[sub|z]|]; [|done..].
    destruct (int_of_str sub) as [user_id|]; [|done].
    destruct (list_find _ db) as [[i u]|]; cbn.
    + by destruct (is_active u).
    + by destruct (in_key_range user_id).
  - done.
  - run_more. by destruct (in_key_range skip && in_key_range limit).
Qed.

(** The token [login_user], [register_user] and [social_login] issue for a
    row. *)
Definition token_for (now : Z) (u : User) : Token :=
  create_access_token SECRET_KEY now
    {["sub" := CStr (str_of_int (id u))]} (Some (minutes 30)).

Lemma login_user_found now creds (db : DB) i u :
  list_find (fun v => username v = login_username creds \/
                      email v = login_username creds) db = Some (i, u) ->
  login_user SECRET_KEY verify_password str_of_int now creds db =
  if verify_password (login_password creds) (hashed_password u) then
    if is_active u then
      (Ok {| access_token := token_for now u; token_type := "bearer"; user := u |}, db)
    else (Raise inactive_exception, db)
  else
    (Raise {| status_code := 401; detail := "Incorrect username or password" |}, db).
Proof using Type.
  intros Hf. run_more. rewrite Hf. cbn.
  destruct (verify_password _ _); [|done]. cbn. by destruct (is_active u).
Qed.

Lemma login_user_inv now creds (db db' : DB) resp :
  login_user SECRET_KEY verify_password str_of_int now creds db = (Ok resp, db') ->
  db' = db /\
  exists i,
    list_find (fun v => username v = login_username creds \/
                        email v = login_username creds) db = Some (i, user resp) /\
    verify_password (login_password creds) (hashed_password (user resp)) = true /\
    is_active (user resp) = true /\
    access_token resp = token_for now (user resp).
Proof using Type.
  destruct (list_find (fun v => username v = login_username creds \/
                                email v = login_username creds) db)
    as [[i u]|] eqn:Hf.
  - rewrite (login_user_found now creds db i u Hf).
    destruct (verify_password _ _) eqn:Hv; [|done].
    destruct (is_active u) eqn:Ha; [|done].
    intros [= <- <-]. split; [done|]. exists i. by split_and!.
  - run_more. rewrite Hf. done.
Qed.

(** The instant from which python-jose refuses the token issued at [now]:
    the end of the second in which the thirty minutes are over. *)
Definition token_deadline (now : Z) : Z :=
  (seconds (now + minutes 30) + 1) * 1000000.

Lemma token_deadline_bounds now :
  now + minutes 30 < token_deadline now <= now + minutes 30 + 1000000.
Proof using Type.
  unfold token_deadline.
  pose proof (TokenLife.seconds_le (now + minutes 30)).
  pose proof (TokenLife.seconds_lt (now + minutes 30)). lia.
Qed.

Lemma decode_token_for now now' u :
  now' < token_deadline now ->
  jose_decode (token_for now u) SECRET_KEY [ALGORITHM] now' =
  Some (as_encoded
          (to_encode now {["sub" := CStr (str_of_int (id u))]} (Some (minutes 30)))).
Proof using Type*.
  intros Hlt. unfold token_for, create_access_token.
  eapply jose_roundtrip;
    [apply plain_to_encode, plain_sub | apply to_encode_exp | done].
Qed.

Lemma get_current_user_token now now' (db : DB) i u :
  unique_ids db -> db !! i = Some u ->
  int_of_str (str_of_int (id u)) = Some (id u) ->
  now' < token_deadline now ->
  get_current_user SECRET_KEY int_of_str now' (token_for now u) db = (Ok u, db).
Proof using Type*.
  intros Hnd Hi Hint Hlt. unfold get_current_user.
  rewrite (decode_token_for now now' u Hlt).
  rewrite as_encoded_lookup_other by done.
  rewrite to_encode_other by done. rewrite lookup_singleton_eq. cbn.
  rewrite Hint. run_more.
  by rewrite (find_by_key id (fun v => id v = id u) db i u).
Qed.

Lemma get_current_user_late now now' (db : DB) u :
  token_deadline now <= now' ->
  get_current_user SECRET_KEY int_of_str now' (token_for now u) db =
  (Raise credentials_exception, db).
Proof using Type*.
  intros Hge. unfold get_current_user, token_for, create_access_token.
  by rewrite (TokenLife.jose_expired_refused _ SECRET_KEY [ALGORITHM]
                now' (now + minutes 30)
                (plain_to_encode now _ (Some (minutes 30)) (plain_sub _))
                (to_encode_exp now _ (Some (minutes 30))) Hge).
Qed.

(** The token a successful login returns authenticates as the user that
    logged in until the end of the second in which thirty minutes have
    passed, hence for thirty minutes at least, and is refused with a 401
    from then on, one second after the thirtieth minute at the latest. *)
Theorem login_token_window now now' creds (db db' : DB) resp :
  unique_ids db ->
  login_user SECRET_KEY verify_password str_of_int now creds db = (Ok resp, db') ->
  int_of_str (str_of_int (id (user resp))) = Some (id (user resp)) ->
  let deadline := (seconds (now + minutes 30) + 1) * 1000000 in
  (now' < deadline ->
   current_active_user now' (access_token resp) db = (Ok (user resp), db)) /\
  (deadline <= now' ->
   fails_with 401 (current_active_user now' (access_token resp) db)) /\
  now + minutes 30 < deadline <= now + minutes 30 + 1000000.
Proof using Type*.
  intros Hnd (-> & i & (Hi & _)%list_find_Some & _ & Hact & ->)%login_user_inv Hint.
  unfold current_active_user, mbind, Handler_bind. split_and!.
  - intros Hlt. rewrite (get_current_user_token now now' db i _ Hnd Hi Hint Hlt).
    unfold get_current_active_user. by rewrite Hact.
  - intros Hge. rewrite (get_current_user_late now now' db _ Hge). by eexists.
  - apply token_deadline_bounds.
  - apply token_deadline_bounds.
Qed.

Lemma delete_user_account_db current_user (db : DB) :
  (delete_user_account current_user db).2 =
  (fun v => if decide (id v = id current_user) then set_active v false else v) <$> db.
Proof using Type. reflexivity. Qed.

Lemma find_after_delete (P : User -> Prop) `{forall u, Decision (P u)}
    uid (db : DB) i u :
  (forall v b, P (set_active v b) <-> P v) ->
  list_find P db = Some (i, u) ->
  list_find P ((fun v => if decide (id v = uid) then set_active v false else v) <$> db)
  = Some (i, if decide (id u = uid) then set_active u false else u).
Proof using Type.
  intros HP Hf. rewrite list_find_fmap.
  erewrite (list_find_ext _ P); [by rewrite Hf|].
  intros v. cbn. case_decide; [apply HP | done].
Qed.

(** After [delete_user_account] the account is closed but kept: the
    credentials that logged the user in are answered with a 400, so is a
    token issued before, and the email and username stay taken. *)
Theorem delete_closes_account now now1 now2 creds (db db' : DB) resp :
  unique_ids db ->
  login_user SECRET_KEY verify_password str_of_int now creds db = (Ok resp, db') ->
  int_of_str (str_of_int (id (user resp))) = Some (id (user resp)) ->
  let closed := (delete_user_account (user resp) db).2 in
  fails_with 400
    (login_user SECRET_KEY verify_password str_of_int now1 creds closed) /\
  (now2 < now + minutes 30 ->
   fails_with 400 (current_active_user now2 (access_token resp) closed)) /\
  taken closed (username (user resp)) (email (user resp)).
Proof using Type*.
  intros Hnd (-> & i & Hfind & Hver & Hact & ->)%login_user_inv Hint closed.
  subst closed. rewrite delete_user_account_db.
  pose proof Hfind as (Hi & _)%list_find_Some.
  set (f := fun v => if decide (id v = id (user resp)) then set_active v false else v).
  assert (f (user resp) = set_active (user resp) false) as Hfu.
  { unfold f. by rewrite decide_True. }
  assert ((f <$> db) !! i = Some (set_active (user resp) false)) as Hi'.
  { by rewrite list_lookup_fmap, Hi, <- Hfu. }
  split_and!.
  - erewrite login_user_found.
    2: { apply (find_after_delete _ (id (user resp)) db i (user resp)); [done|].
         exact Hfind. }
    rewrite decide_True by done. cbn. rewrite Hver. by eexists.
  - intros Hlt. unfold current_active_user, mbind, Handler_bind.
    assert (unique_ids (f <$> db)) as Hnd'.
    { unfold unique_ids. rewrite <- list_fmap_compose.
      rewrite (list_fmap_ext (id ∘ f) id db); [done|].
      intros j v _. unfold f. cbn. by case_decide. }
    assert (now2 < token_deadline now) as Hlt'.
    { pose proof (token_deadline_bounds now). lia. }
    pose proof (get_current_user_token now now2 (f <$> db) i
                  (set_active (user resp) false) Hnd' Hi' Hint Hlt') as Hg.
    unfold token_for in *. cbn in Hg. rewrite Hg. by eexists.
  - unfold taken. apply Exists_exists. exists (set_active (user resp) false).
    split; [|by left]. apply list_elem_of_lookup. eauto.
Qed.

Lemma find_last_row (P : User -> Prop) `{forall u, Decision (P u)} (db : DB) r :
  (forall v, v ∈ db -> ~ P v) -> P r ->
  list_find P (db ++ [r])%list = Some (length db, r).
Proof using Type.
  intros Hno Hr. apply list_find_Some. split_and!; [|done|].
  - by rewrite list_lookup_middle.
  - intros j y Hj Hlt. rewrite lookup_app_l in Hj by done.
    apply Hno, list_elem_of_lookup. eauto.
Qed.

Lemma login_last_row now name password (db : DB) r :
  (forall v, v ∈ db -> username v <> name /\ email v <> name) ->
  username r = name \/ email r = name ->
  verify_password password (hashed_password r) = true ->
  is_active r = true ->
  login_user SECRET_KEY verify_password str_of_int now
    {| login_username := name; login_password := password |} (db ++ [r])%list =
  (Ok {| access_token := token_for now r; token_type := "bearer"; user := r |},
   (db ++ [r])%list).
Proof using Type.
  intros Hno Hr Hv Ha.
  erewrite login_user_found.
  2: { apply find_last_row; cbn; [|done]. intros v Hin. destruct (Hno v Hin) as [? ?]. by intros [?|?]. }
  cbn. by rewrite Hv, Ha.
Qed.

(** A registered user can log in at once with the password just chosen,
    by username or by email, provided no earlier row answers to that
    name: login takes the first row whose username or email is the name
    given. *)
Theorem register_then_login now now' new_id salt d name (db : DB) :
  ~ taken db (uc_username d) (uc_email d) ->
  name = uc_username d \/ name = uc_email d ->
  (forall v, v ∈ db -> username v <> name /\ email v <> name) ->
  verify_password (uc_password d) (hash_password salt (uc_password d)) = true ->
  let db' := (register_user now new_id salt d db).2 in
  login_user SECRET_KEY verify_password str_of_int now'
    {| login_username := name; login_password := uc_password d |} db' =
  (Ok {| access_token := token_for now' (registered_row new_id salt d);
         token_type := "bearer";
         user := registered_row new_id salt d |}, db').
Proof using Type.
  intros Hfree Hname Hno Hv db'. subst db'.
  rewrite (register_user_free now new_id salt d db Hfree). cbn.
  apply login_last_row; [done| |done..].
  cbn. destruct Hname as [-> | ->]; [by left | by right].
Qed.

Lemma forgot_password_db now uuid4 mail (db : DB) i u :
  unique_emails db -> db !! i = Some u -> email u = mail ->
  forgot_password now uuid4 mail db =
  (Ok forgot_message,
   <[i := set_reset u (Some uuid4) (Some (now + hours 1))]> db).
Proof using Type.
  intros Hnd Hi Hm. run_more.
  rewrite (first_unique (fun v => email v = mail) db i u)
    by (try done; congruence).
  done.
Qed.

(** After [forgot_password] for a stored email, the table accepts exactly
    one reset token for that email, the one just drawn, and exactly up to
    its expiry. *)
Lemma reset_live_after_forgot now uuid4 mail (db : DB) i u now' token :
  unique_emails db -> db !! i = Some u -> email u = mail ->
  reset_live (<[i := set_reset u (Some uuid4) (Some (now + hours 1))]> db)
    now' (Some mail) token <->
  token = Some uuid4 /\ now' <= now + hours 1.
Proof using Type.
  intros Hnd Hi Hm.
  set (u' := set_reset u (Some uuid4) (Some (now + hours 1))).
  assert (<[i := u']> db !! i = Some u') as Hi'.
  { apply list_lookup_insert_eq. by eapply lookup_lt_Some. }
  assert (unique_emails (<[i := u']> db)) as Hnd'.
  { by eapply unique_emails_insert. }
  split.
  - intros (v & e & Hv & Hvm & Hvt & Hve & Hle).
    assert (v = u') as ->.
    { eapply unique_emails_elem; [done..| |].
      - apply list_elem_of_lookup. eauto.
      - cbn. congruence. }
    cbn in *. injection Hve as <-. by split.
  - intros [-> Hle]. exists u', (now + hours 1). split_and!; try done.
    + apply list_elem_of_lookup. eauto.
    + cbn. by rewrite Hm.
Qed.


(** Asking again replaces the token: after a second [forgot_password] the
    token of the first is refused, whatever the time. *)
Theorem forgot_again_revokes now1 now2 now' uuid1 uuid2 mail payload (db : DB) i u :
  unique_emails db -> db !! i = Some u -> email u = mail ->
  uuid1 <> uuid2 ->
  payload !! "email" = Some mail -> payload !! "token" = Some uuid1 ->
  let db1 := (forgot_password now1 uuid1 mail db).2 in
  let db2 := (forgot_password now2 uuid2 mail db1).2 in
  fails_with 400 (verify_reset_token now' payload db2) /\
  fails_with 400 (reset_password bcrypt_hash now' payload db2).
Proof using Type.
  intros Hnd Hi Hm Hne Hpm Hpt db1 db2. subst db1 db2.
  rewrite (forgot_password_db now1 uuid1 mail db i u Hnd Hi Hm). cbn.
  set (u1 := set_reset u (Some uuid1) (Some (now1 + hours 1))).
  assert (<[i := u1]> db !! i = Some u1) as Hi1.
  { apply list_lookup_insert_eq. by eapply lookup_lt_Some. }
  assert (unique_emails (<[i := u1]> db)) as Hnd1.
  { by eapply unique_emails_insert. }
  rewrite (forgot_password_db now2 uuid2 mail _ i u1 Hnd1 Hi1 Hm). cbn.
  assert (unique_emails
            (<[i := set_reset u1 (Some uuid2) (Some (now2 + hours 1))]>
               (<[i := u1]> db))) as Hnd2.
  { by eapply unique_emails_insert. }
  assert (~ reset_live
            (<[i := set_reset u1 (Some uuid2) (Some (now2 + hours 1))]>
               (<[i := u1]> db)) now' (payload !! "email") (payload !! "token"))
    as Hn.
  { rewrite Hpm, Hpt.
    rewrite (reset_live_after_forgot now2 uuid2 mail _ i u1 now' _ Hnd1 Hi1 Hm).
    intros [[= ?] _]. done. }
  rewrite (verify_reset_token_rejects _ _ _ Hnd2 Hn),
    (reset_password_rejects bcrypt_hash _ _ _ Hnd2 Hn).
  split; by eexists.
Qed.

(** The recovery stops short.  With the token [forgot_password] stored,
    and within the hour, [reset_password] passes its check and ends in
    the [AttributeError] of [bcrypt.hash], answered with a 500: the row
    keeps the password hash it had and the token just stored, which
    [verify_reset_token] goes on accepting until the hour is over. *)
Theorem password_recovery_stalls now now' now'' uuid4 mail payload
    (db : DB) i u :
  unique_emails db -> db !! i = Some u -> email u = mail ->
  payload !! "email" = Some mail -> payload !! "token" = Some uuid4 ->
  now' <= now + hours 1 ->
  let db1 := (forgot_password now uuid4 mail db).2 in
  let r := reset_password bcrypt_no_hash now' payload db1 in
  r = (Crash, db1) /\
  (exists u1, r.2 !! i = Some u1 /\
     hashed_password u1 = hashed_password u /\
     reset_token u1 = Some uuid4 /\
     reset_token_expires u1 = Some (now + hours 1)) /\
  (now'' <= now + hours 1 ->
   verify_reset_token now'' payload r.2 = (Ok "Token is valid", r.2)).
Proof using Type.
  intros Hnd Hi Hm Hpm Hpt Hle db1 r. subst r db1.
  rewrite (forgot_password_db now uuid4 mail db i u Hnd Hi Hm). cbn [snd].
  set (u1 := set_reset u (Some uuid4) (Some (now + hours 1))).
  assert (i < length db)%nat as Hlen by by eapply lookup_lt_Some.
  assert (<[i := u1]> db !! i = Some u1) as Hi1 by by apply list_lookup_insert_eq.
  assert (unique_emails (<[i := u1]> db)) as Hnd1 by by eapply unique_emails_insert.
  pose proof (fun t => reset_live_after_forgot now uuid4 mail db i u t
                         (payload !! "token") Hnd Hi Hm) as Hlive.
  rewrite (reset_password_no_hash now' payload _ Hnd1).
  2: { rewrite Hpm. apply Hlive. by rewrite Hpt. }
  split_and!; [done | |].
  - exists u1. by split_and!.
  - intros Hle'. cbn [snd]. apply verify_reset_token_live; [done|].
    rewrite Hpm. apply Hlive. by rewrite Hpt.
Qed.

(** The account [social_login] looks for or creates. *)
Definition social_user_data (provider : string) : UserCreate :=
  {| uc_username := "social_user_" +:+ provider;
     uc_email := "user@" +:+ provider +:+ ".com";
     uc_full_name := capitalize provider +:+ " User";
     uc_password := "social_login_placeholder" |}.

Lemma supported_provider provider :
  provider = "google" \/ provider = "apple" ->
  bool_decide (provider ∉ ["google"; "apple"]) = false.
Proof using Type.
  intros Hp. apply bool_decide_eq_false_2. intros Hn. apply Hn.
  rewrite !elem_of_cons. destruct Hp as [-> | ->]; [by left | by right; left].
Qed.

Lemma social_login_existing now new_id salt provider token (db : DB) i u :
  provider = "google" \/ provider = "apple" ->
  list_find (fun v => email v = uc_email (social_user_data provider)) db
    = Some (i, u) ->
  social_login now new_id salt provider token db =
  (Ok {| access_token := token_for now u; token_type := "bearer"; user := u |}, db).
Proof using Type.
  intros Hp Hf. unfold social_login. rewrite (supported_provider _ Hp).
  run_more. unfold social_user_data in Hf. cbn [uc_email] in *. by rewrite Hf.
Qed.

Lemma social_login_absent now new_id salt provider token (db : DB) :
  provider = "google" \/ provider = "apple" ->
  (forall v, v ∈ db -> email v <> uc_email (social_user_data provider)) ->
  social_login now new_id salt provider token db =
  if bool_decide (Exists (fun v =>
       username v = uc_username (social_user_data provider) \/
       email v = uc_email (social_user_data provider)) db)
  then (Crash, db)
  else
    (Ok {| access_token :=
             token_for now (registered_row new_id salt (social_user_data provider));
           token_type := "bearer";
           user := registered_row new_id salt (social_user_data provider) |},
     (db ++ [registered_row new_id salt (social_user_data provider)])%list).
Proof using Type.
  intros Hp Hno. unfold social_login. rewrite (supported_provider _ Hp).
  run_more. destruct (list_find _ db) as [[j w]|] eqn:Hf.
  - apply list_find_Some in Hf as (Hj & Hw & _). exfalso.
    eapply Hno; [apply list_elem_of_lookup; eauto | exact Hw].
  - cbn. by case_bool_decide.
Qed.

(** [social_login] refuses a provider other than google and apple with a
    400; and when no row has the provider's mock email but one already has
    its mock username, the insertion violates the unique constraint, the
    exception is not handled, and the request ends in a 500.  The table is
    unchanged in both cases. *)
Theorem social_login_failures now new_id salt provider token (db : DB) :
  (provider <> "google" -> provider <> "apple" ->
   social_login now new_id salt provider token db =
   (Raise {| status_code := 400; detail := "Unsupported social login provider" |},
    db)) /\
  (provider = "google" \/ provider = "apple" ->
   (forall v, v ∈ db -> email v <> "user@" +:+ provider +:+ ".com") ->
   (exists v, v ∈ db /\ username v = "social_user_" +:+ provider) ->
   social_login now new_id salt provider token db = (Crash, db)).
Proof using Type.
  split.
  - intros Hg Ha. unfold social_login.
    rewrite bool_decide_eq_true_2; [done|].
    rewrite !not_elem_of_cons. split_and!; [done..|apply not_elem_of_nil].
  - intros Hp Hno (v & Hin & Hname).
    rewrite (social_login_absent now new_id salt provider token db Hp Hno).
    rewrite bool_decide_eq_true_2; [done|].
    apply Exists_exists. exists v. split; [done|]. by left.
Qed.

(** Signing in twice through the same provider creates one account: the
    second call finds the row the first one stored, returns it, and leaves
    the table as it is. *)
Theorem social_login_twice now now' new_id new_id' salt salt' provider token token'
    (db : DB) :
  provider = "google" \/ provider = "apple" ->
  ~ taken db ("social_user_" +:+ provider) ("user@" +:+ provider +:+ ".com") ->
  let r1 := social_login now new_id salt provider token db in
  let r2 := social_login now' new_id' salt' provider token' r1.2 in
  exists resp1 resp2,
    r1.1 = Ok resp1 /\ r2.1 = Ok resp2 /\
    user resp2 = user resp1 /\ r2.2 = r1.2 /\
    r1.2 = (db ++ [user resp1])%list.
Proof using Type.
  intros Hp Hfree r1 r2. subst r2 r1.
  assert (forall v, v ∈ db -> email v <> uc_email (social_user_data provider))
    as Hno.
  { intros v Hv. by apply (not_taken_fresh db _ _ v Hfree). }
  rewrite (social_login_absent now new_id salt provider token db Hp Hno).
  rewrite bool_decide_eq_false_2.
  2: { intros Hex. apply Hfree. unfold taken.
       eapply Exists_impl; [exact Hex|]. cbn. intros x [?|?]; [by right | by left]. }
  cbn [fst snd].
  erewrite (social_login_existing now' new_id' salt' provider token'
              _ (length db) (registered_row new_id salt (social_user_data provider)) Hp).
  - eexists _, _. by split_and!.
  - apply find_last_row; [exact Hno | done].
Qed.

(** The account [social_login] creates is stored with the hash of a fixed
    password, so the ordinary login accepts that password for its
    username (when no row has that username for email). *)
Theorem social_placeholder_password now now' new_id salt provider token (db : DB) :
  provider = "google" \/ provider = "apple" ->
  ~ taken db ("social_user_" +:+ provider) ("user@" +:+ provider +:+ ".com") ->
  (forall v, v ∈ db -> email v <> "social_user_" +:+ provider) ->
  verify_password "social_login_placeholder"
    (hash_password salt "social_login_placeholder") = true ->
  let db' := (social_login now new_id salt provider token db).2 in
  exists resp,
    login_user SECRET_KEY verify_password str_of_int now'
      {| login_username := "social_user_" +:+ provider;
         login_password := "social_login_placeholder" |} db' = (Ok resp, db') /\
    id (user resp) = new_id /\
    email (user resp) = "user@" +:+ provider +:+ ".com".
Proof using Type.
  intros Hp Hfree Hmail Hv db'. subst db'.
  assert (forall v, v ∈ db -> email v <> uc_email (social_user_data provider))
    as Hno.
  { intros v Hin. by apply (not_taken_fresh db _ _ v Hfree). }
  rewrite (social_login_absent now new_id salt provider token db Hp Hno).
  rewrite bool_decide_eq_false_2.
  2: { intros Hex. apply Hfree. unfold taken.
       eapply Exists_impl; [exact Hex|]. cbn. intros x [?|?]; [by right | by left]. }
  cbn [snd]. eexists. split_and!.
  - apply login_last_row; [|by left|done..].
    intros v Hin. split; [|by apply Hmail].
    by apply (not_taken_fresh db _ _ v Hfree).
  - done.
  - done.
Qed.

Lemma in_key_range_spec z :
  in_key_range z = true <->
  -9223372036854775808 <= z <= 9223372036854775807.
Proof using Type.
  unfold in_key_range. rewrite andb_true_iff, !Z.leb_le. done.
Qed.

(** Listing users pages through the active rows in table order.  With no
    offset and no limit the listing is the active rows of the table, in
    table order, and no row of a deactivated account; a page is the slice
    of that listing that starts after [skip] rows and has at most [limit]
    rows; the next page starts where this one ends; a limit that covers
    the listing returns all of it.  A negative limit lists the rows to
    the end, and a negative offset starts at the first row.  An offset
    or a limit beyond 64 bits ends the request as an unhandled error. *)
Theorem get_users_pages skip limit limit' current_user (db : DB) :
  0 <= skip -> 0 <= limit -> 0 <= limit' ->
  skip + limit <= 9223372036854775807 ->
  limit + limit' <= 9223372036854775807 ->
  exists everyone page next,
    get_users 0 (-1) current_user db = (Ok everyone, db) /\
    everyone = filter (fun u => is_active u = true) db /\
    get_users skip limit current_user db = (Ok page, db) /\
    page = take (Z.to_nat limit) (drop (Z.to_nat skip) everyone) /\
    get_users (skip + limit) limit' current_user db = (Ok next, db) /\
    get_users skip (limit + limit') current_user db
      = (Ok (page ++ next)%list, db) /\
    (Z.of_nat (length everyone) <= limit ->
     get_users 0 limit current_user db = (Ok everyone, db)) /\
    get_users skip (- 1 - limit) current_user db
      = (Ok (drop (Z.to_nat skip) everyone), db) /\
    get_users (- skip) limit current_user db
      = (Ok (take (Z.to_nat limit) everyone), db) /\
    get_users (9223372036854775808 + skip) limit current_user db = (Crash, db) /\
    get_users skip (9223372036854775808 + limit) current_user db = (Crash, db).
Proof using Type.
  intros Hs Hl Hl' Hsl Hll. unfold get_users.
  assert (forall z, -9223372036854775808 <= z <= 9223372036854775807 ->
                    in_key_range z = true) as Hin.
  { intros z Hz. by apply in_key_range_spec. }
  assert (forall z, 9223372036854775807 < z -> in_key_range z = false) as Hout.
  { intros z Hz. apply not_true_is_false. rewrite in_key_range_spec. lia. }
  rewrite (Hin 0), (Hin (-1)), (Hin skip), (Hin limit), (Hin limit'),
    (Hin (skip + limit)), (Hin (limit + limit')), (Hin (-1 - limit)),
    (Hin (- skip)), (Hout (9223372036854775808 + skip)),
    (Hout (9223372036854775808 + limit)) by lia.
  cbn [andb].
  assert ((limit <? 0) = false) as -> by (apply Z.ltb_ge; lia).
  assert ((limit' <? 0) = false) as -> by (apply Z.ltb_ge; lia).
  assert ((limit + limit' <? 0) = false) as -> by (apply Z.ltb_ge; lia).
  assert ((-1 - limit <? 0) = true) as -> by (apply Z.ltb_lt; lia).
  assert (Z.to_nat (- skip) = 0%nat) as -> by lia.
  rewrite !Z2Nat.inj_add by done.
  change (Z.to_nat 0) with 0%nat. change (-1 <? 0) with true. cbn [drop].
  set (everyone := filter (fun u => is_active u = true) db).
  exists everyone, (take (Z.to_nat limit) (drop (Z.to_nat skip) everyone)),
    (take (Z.to_nat limit')
       (drop (Z.to_nat skip + Z.to_nat limit) everyone)).
  split_and!; try done.
  - by rewrite <- drop_drop, take_take_drop.
  - intros Hlen. rewrite drop_0. by rewrite take_ge by lia.
Qed.

(** A letter or a digit of ASCII. *)
Definition is_alnum (c : ascii) : bool :=
  let n := N_of_ascii c in
  ((48 <=? n) && (n <=? 57) || (65 <=? n) && (n <=? 90) ||
   (97 <=? n) && (n <=? 122))%N.

Lemma length_string_of_list_ascii (l : list ascii) :
  String.length (string_of_list_ascii l) = length l.
Proof using Type. induction l as [|c l IH]; cbn; [done | by rewrite IH]. Qed.

Lemma alphabet_alnum c :
  c ∈ list_ascii_of_string alphabet -> is_alnum c = true.
Proof using Type.
  intros Hc. apply list_elem_of_In in Hc.
  assert (forallb is_alnum (list_ascii_of_string alphabet) = true) as Hall
    by reflexivity.
  rewrite forallb_forall in Hall. by apply Hall.
Qed.

(** [generate_reset_token] returns as many characters as asked for (none
    for a negative length), each an ASCII letter or digit. *)
Theorem generate_reset_token_shape (length : Z) :
  (forall k, secrets_choice k (list_ascii_of_string alphabet)
             ∈ list_ascii_of_string alphabet) ->
  String.length (generate_reset_token length) = Z.to_nat length /\
  Forall (fun c => is_alnum c = true)
         (list_ascii_of_string (generate_reset_token length)).
Proof using Type.
  intros Hchoice. unfold generate_reset_token. split.
  - by rewrite length_string_of_list_ascii, length_map, length_seq.
  - rewrite list_ascii_of_string_of_list_ascii. apply Forall_forall.
    intros c Hc. apply list_elem_of_In, in_map_iff in Hc as (k & <- & _).
    apply alphabet_alnum, Hchoice.
Qed.

End MoreHandlers.

(** *** The account handlers on the sample table *)

Definition sample_salted_hash (salt password : string) : string :=
  "bcrypt:" +:+ password.

Definition sample_choice (k : nat) (l : list ascii) : ascii :=
  nth (k mod 62) l "a"%char.

Definition carol_data : UserCreate :=
  {| uc_username := "carol"; uc_email := "carol@example.org";
     uc_full_name := "Carol C"; uc_password := "carol-pass" |}.

Definition alice_login : UserLogin :=
  {| login_username := "alice"; login_password := "old" |}.

Definition squatter : User :=
  {| id := 9; username := "social_user_google"; email := "eve@example.org";
     hashed_password := "bcrypt:eve"; is_active := true;
     reset_token := None; reset_token_expires := None |}.

Ltac in_sample H :=
  apply elem_of_cons in H as [-> | H];
  [| apply list_elem_of_singleton in H as ->].

Lemma sample_db_constraints : constraints sample_db.
Proof.
  unfold constraints, unique_ids, unique_usernames, unique_emails, sample_db.
  cbn. split_and!; (apply NoDup_cons; split; [|apply NoDup_singleton]);
    intros Hin; apply list_elem_of_singleton in Hin; discriminate.
Defined.

Lemma sample_db_free name mail :
  (forall u, u ∈ sample_db -> email u <> mail /\ username u <> name) ->
  ~ taken sample_db name mail.
Proof.
  intros Hfree (u & Hin & Hu)%Exists_exists.
  destruct (Hfree u Hin) as [? ?]. by destruct Hu.
Defined.

Lemma carol_free : ~ taken sample_db "carol" "carol@example.org".
Proof. apply sample_db_free. intros u Hin. in_sample Hin; by split. Defined.

Example register_carol :
  register_user (Token := RefToken) "k" sample_salted_hash pretty 0 3 "salt"
    carol_data sample_db =
  (Ok {| access_token :=
           {| rt_claims := {["sub" := CStr "3"; "exp" := CNum 1800]};
              rt_key := "k"; rt_alg := "HS256" |};
         token_type := "bearer";
         user := {| id := 3; username := "carol"; email := "carol@example.org";
                    hashed_password := "bcrypt:carol-pass"; is_active := true;
                    reset_token := None; reset_token_expires := None |} |},
   [alice; bob;
    {| id := 3; username := "carol"; email := "carol@example.org";
       hashed_password := "bcrypt:carol-pass"; is_active := true;
       reset_token := None; reset_token_expires := None |}]).
Proof. reflexivity. Qed.


Lemma handlers_keep_constraints_witness :
  constraints
    (register_user (Token := RefToken) "k" sample_salted_hash pretty 0 3 "salt"
       carol_data sample_db).2.
Proof.
  apply (handlers_keep_constraints (Token := RefToken) "k" sample_verify
           sample_salted_hash bcrypt_no_hash sample_int pretty (fun s => s)
           sample_db 0 3 "salt" carol_data "uuid-1" "alice@example.org"
           alice_payload alice "google" "t" alice_login
           (jwt_encode ∅ "k" ALGORITHM) 0 10 sample_db_constraints).
  intros u Hin. in_sample Hin; discriminate.
Defined.

Definition alice_session : LoginResponse (Token := RefToken) :=
  {| access_token := token_for (Token := RefToken) "k" pretty 0 alice;
     token_type := "bearer"; user := alice |}.

Lemma alice_logs_in :
  login_user (Token := RefToken) "k" sample_verify pretty 0 alice_login sample_db
  = (Ok alice_session, sample_db).
Proof. reflexivity. Defined.

Lemma alice_id_round_trip :
  sample_int (pretty (id (user alice_session))) = Some (id (user alice_session)).
Proof. reflexivity. Defined.

Lemma login_token_window_witness :
  current_active_user (Token := RefToken) "k" sample_int 1800000000
    (token_for (Token := RefToken) "k" pretty 0 alice) sample_db
    = (Ok alice, sample_db) /\
  fails_with 401
    (current_active_user (Token := RefToken) "k" sample_int 1801000000
       (token_for (Token := RefToken) "k" pretty 0 alice) sample_db).
Proof.
  destruct (login_token_window (Token := RefToken) "k" sample_verify sample_int
              pretty 0 1800000000 alice_login sample_db sample_db alice_session
              (proj1 sample_db_constraints) alice_logs_in alice_id_round_trip)
    as (Hin & _ & _).
  destruct (login_token_window (Token := RefToken) "k" sample_verify sample_int
              pretty 0 1801000000 alice_login sample_db sample_db alice_session
              (proj1 sample_db_constraints) alice_logs_in alice_id_round_trip)
    as (_ & Hout & _).
  split; [apply Hin; reflexivity | apply Hout; reflexivity].
Defined.

Lemma delete_closes_account_witness :
  fails_with 400
    (login_user (Token := RefToken) "k" sample_verify pretty 7 alice_login
       (delete_user_account alice sample_db).2) /\
  fails_with 400
    (current_active_user (Token := RefToken) "k" sample_int 5
       (token_for (Token := RefToken) "k" pretty 0 alice)
       (delete_user_account alice sample_db).2).
Proof.
  destruct (delete_closes_account (Token := RefToken) "k" sample_verify sample_int
              pretty 0 7 5 alice_login sample_db sample_db alice_session
              (proj1 sample_db_constraints) alice_logs_in alice_id_round_trip)
    as (Hl & Ht & _).
  split; [exact Hl | apply Ht; reflexivity].
Defined.

Lemma register_then_login_witness :
  exists resp db',
    login_user (Token := RefToken) "k" sample_verify pretty 9
      {| login_username := "carol"; login_password := "carol-pass" |}
      (register_user (Token := RefToken) "k" sample_salted_hash pretty 0 3 "salt"
         carol_data sample_db).2 = (Ok resp, db') /\
    id (user resp) = 3.
Proof.
  eexists _, _. split.
  - apply (register_then_login (Token := RefToken) "k" sample_verify
             sample_salted_hash pretty 0 9 3 "salt" carol_data "carol" sample_db
             carol_free).
    + by left.
    + intros v Hin. in_sample Hin; by split.
    + reflexivity.
  - reflexivity.
Defined.

Definition uuid_payload (token : string) : gmap string string :=
  <["password" := "new"]>
    (<["token" := token]> {["email" := "alice@example.org"]}).

Lemma uuid_payload_email token :
  uuid_payload token !! "email" = Some "alice@example.org".
Proof. reflexivity. Defined.

Lemma uuid_payload_token token : uuid_payload token !! "token" = Some token.
Proof. reflexivity. Defined.

Lemma uuid_payload_password token : uuid_payload token !! "password" = Some "new".
Proof. reflexivity. Defined.


Lemma forgot_again_revokes_witness :
  fails_with 400
    (verify_reset_token 70 (uuid_payload "uuid-1")
       (forgot_password 60 "uuid-2" "alice@example.org"
          (forgot_password 50 "uuid-1" "alice@example.org" sample_db).2).2).
Proof.
  apply (forgot_again_revokes bcrypt_no_hash 50 60 70 "uuid-1" "uuid-2"
           "alice@example.org" (uuid_payload "uuid-1")
           sample_db 0%nat alice sample_db_unique eq_refl eq_refl).
  - discriminate.
  - apply uuid_payload_email.
  - apply uuid_payload_token.
Defined.

Lemma password_recovery_stalls_witness :
  reset_password bcrypt_no_hash 60 (uuid_payload "uuid-1")
    (forgot_password 50 "uuid-1" "alice@example.org" sample_db).2
  = (Crash, (forgot_password 50 "uuid-1" "alice@example.org" sample_db).2).
Proof.
  apply (password_recovery_stalls 50 60 70 "uuid-1" "alice@example.org"
           (uuid_payload "uuid-1") sample_db 0%nat alice
           sample_db_unique eq_refl eq_refl (uuid_payload_email _)
           (uuid_payload_token _)).
  unfold hours. lia.
Defined.

(** A table with a deactivated account between two active ones. *)
Definition dave : User :=
  {| id := 3; username := "dave"; email := "dave@example.org";
     hashed_password := "bcrypt:dave"; is_active := false;
     reset_token := None; reset_token_expires := None |}.

Example get_users_skips_inactive :
  get_users 0 100 alice [alice; dave; bob] = (Ok [alice; bob], [alice; dave; bob]) /\
  get_users 1 1 alice [alice; dave; bob] = (Ok [bob], [alice; dave; bob]) /\
  get_users (-4) (-1) alice [alice; dave; bob]
    = (Ok [alice; bob], [alice; dave; bob]).
Proof. by split_and!. Qed.

Lemma get_users_pages_witness :
  exists everyone page next,
    get_users 0 (-1) alice [alice; dave; bob]
      = (Ok everyone, [alice; dave; bob]) /\
    everyone = filter (fun u => is_active u = true) [alice; dave; bob] /\
    get_users 0 1 alice [alice; dave; bob] = (Ok page, [alice; dave; bob]) /\
    page = take (Z.to_nat 1) (drop (Z.to_nat 0) everyone) /\
    get_users (0 + 1) 1 alice [alice; dave; bob]
      = (Ok next, [alice; dave; bob]) /\
    get_users 0 (1 + 1) alice [alice; dave; bob]
      = (Ok (page ++ next)%list, [alice; dave; bob]) /\
    (Z.of_nat (length everyone) <= 1 ->
     get_users 0 1 alice [alice; dave; bob] = (Ok everyone, [alice; dave; bob])) /\
    get_users 0 (- 1 - 1) alice [alice; dave; bob]
      = (Ok (drop (Z.to_nat 0) everyone), [alice; dave; bob]) /\
    get_users (- 0) 1 alice [alice; dave; bob]
      = (Ok (take (Z.to_nat 1) everyone), [alice; dave; bob]) /\
    get_users (9223372036854775808 + 0) 1 alice [alice; dave; bob]
      = (Crash, [alice; dave; bob]) /\
    get_users 0 (9223372036854775808 + 1) alice [alice; dave; bob]
      = (Crash, [alice; dave; bob]).
Proof.
  apply (get_users_pages 0 1 1 alice [alice; dave; bob]); lia.
Defined.

Lemma social_login_failures_witness :
  social_login (Token := RefToken) "k" sample_salted_hash pretty (fun s => s)
    0 3 "salt" "github" "t" sample_db =
  (Raise {| status_code := 400; detail := "Unsupported social login provider" |},
   sample_db) /\
  social_login (Token := RefToken) "k" sample_salted_hash pretty (fun s => s)
    0 3 "salt" "google" "t" [alice; squatter] = (Crash, [alice; squatter]).
Proof.
  split.
  - apply (proj1 (social_login_failures (Token := RefToken) "k" sample_salted_hash
                    pretty (fun s => s) 0 3 "salt" "github" "t" sample_db));
      discriminate.
  - apply (proj2 (social_login_failures (Token := RefToken) "k" sample_salted_hash
                    pretty (fun s => s) 0 3 "salt" "google" "t" [alice; squatter])).
    + by left.
    + intros v Hin. in_sample Hin; discriminate.
    + exists squatter. split; [|reflexivity].
      apply elem_of_cons. right. by apply list_elem_of_singleton.
Defined.

Lemma google_free :
  ~ taken sample_db ("social_user_" +:+ "google") ("user@" +:+ "google" +:+ ".com").
Proof. apply sample_db_free. intros u Hin. in_sample Hin; by split. Defined.

Lemma social_login_twice_witness :
  exists resp1 resp2,
    (social_login (Token := RefToken) "k" sample_salted_hash pretty (fun s => s)
       0 3 "salt" "google" "t" sample_db).1 = Ok resp1 /\
    (social_login (Token := RefToken) "k" sample_salted_hash pretty (fun s => s)
       60 4 "salt2" "google" "t2"
       (social_login (Token := RefToken) "k" sample_salted_hash pretty (fun s => s)
          0 3 "salt" "google" "t" sample_db).2).1 = Ok resp2 /\
    user resp2 = user resp1.
Proof.
  destruct (social_login_twice (Token := RefToken) "k" sample_salted_hash pretty
              (fun s => s) 0 60 3 4 "salt" "salt2" "google" "t" "t2" sample_db
              (or_introl eq_refl) google_free)
    as (resp1 & resp2 & H1 & H2 & Hu & _).
  exists resp1, resp2. by split_and!.
Defined.

Lemma social_placeholder_password_witness :
  exists resp db',
    login_user (Token := RefToken) "k" sample_verify pretty 60
      {| login_username := "social_user_google";
         login_password := "social_login_placeholder" |}
      (social_login (Token := RefToken) "k" sample_salted_hash pretty (fun s => s)
         0 3 "salt" "google" "t" sample_db).2 = (Ok resp, db') /\
    id (user resp) = 3.
Proof.
  destruct (social_placeholder_password (Token := RefToken) "k" sample_verify
              sample_salted_hash pretty (fun s => s) 0 60 3 "salt" "google" "t"
              sample_db (or_introl eq_refl) google_free)
    as (resp & Hl & Hid & _).
  - intros v Hin. in_sample Hin; discriminate.
  - reflexivity.
  - exists resp. eexists. split; [exact Hl | exact Hid].
Defined.

Lemma sample_choice_in k :
  sample_choice k (list_ascii_of_string alphabet) ∈ list_ascii_of_string alphabet.
Proof.
  apply list_elem_of_In. unfold sample_choice. apply nth_In.
  change (length (list_ascii_of_string alphabet)) with 62%nat.
  apply Nat.mod_upper_bound. discriminate.
Defined.

Lemma generate_reset_token_shape_witness :
  String.length (generate_reset_token sample_choice 32) = 32%nat.
Proof.
  apply (generate_reset_token_shape sample_choice 32 sample_choice_in).
Defined.

Example generate_reset_token_sample :
  generate_reset_token sample_choice 5 = "abcde".
Proof. reflexivity. Qed.

End Accounts.

(** ** More on the chat responder ([generate_ai_response]) *)

Module Replies.
Import PyStr Chat.

(** The request [generate_ai_response] sends for a message. *)
Definition completion_request (user_message : string) : CompletionRequest :=
  {| model := "gpt-3.5-turbo";
     messages := [("system", system_prompt); ("user", user_message)];
     max_tokens := 200;
     temperature := (7, 10) |}.

(** A character of the ASCII range. *)
Definition is_ascii (c : ascii) : bool := (N_of_ascii c <? 128)%N.

(** What is assumed of [str.lower] below: a run of ASCII characters inside
    a text comes out lowercased in place, whatever surrounds it. *)
Definition lowers_ascii_runs (lower : string -> string) : Prop :=
  forall pre k post,
    forallb is_ascii (list_ascii_of_string k) = true ->
    exists pre' post',
      lower (pre ++ k ++ post)%string = (pre' ++ ascii_lower k ++ post')%string.

Definition is_completion_call {X} (c : Call X) : bool :=
  match c with ChatCompletionCreate _ => true | _ => false end.

Lemma calls_openai_inv {A} (p : Prog A) :
  calls_openai p ->
  match p with
  | Ret _ => False
  | Do c k => is_completion_call c = true \/ exists x, calls_openai (k x)
  end.
Proof. intros Hc. destruct Hc; [by left | right; eauto]. Qed.

Section Replies.

Variable lower : string -> string.
Variable strip : string -> string.

Lemma run_fallback (w : World) :
  run w fallback = (w_choice w supportive_responses, [EvRandomChoice]).
Proof using Type. reflexivity. Qed.

Lemma run_after_triage (w : World) api_key user_message session_id :
  run w (after_triage strip api_key user_message session_id) =
  if truthy api_key then
    match w_recent w session_id 10 with
    | None =>
        (w_choice w supportive_responses,
         [EvRecentMessages session_id; EvRandomChoice])
    | Some _ =>
        match w_completion w (completion_request user_message) with
        | None =>
            (w_choice w supportive_responses,
             [EvRecentMessages session_id;
              EvChatCompletion (completion_request user_message);
              EvRandomChoice])
        | Some content =>
            (strip content,
             [EvRecentMessages session_id;
              EvChatCompletion (completion_request user_message)])
        end
    end
  else (w_choice w supportive_responses, [EvRandomChoice]).
Proof using Type.
  unfold after_triage. destruct (truthy api_key); [|done]. cbn.
  destruct (w_recent w session_id 10) as [history|]; [|done]. cbn.
  fold (completion_request user_message).
  by destruct (w_completion w (completion_request user_message)).
Qed.

(** Without a configured API key the responder never queries the history
    and never calls the completion service: a message outside every tier
    is answered by the random pick alone. *)
Theorem no_key_no_call api_key user_message session_id (w : World) :
  truthy api_key = false ->
  ~ calls_openai (generate_ai_response lower strip api_key user_message session_id) /\
  ((run w (generate_ai_response lower strip api_key user_message session_id)).2 = []
   \/
   run w (generate_ai_response lower strip api_key user_message session_id) =
     (w_choice w supportive_responses, [EvRandomChoice])).
Proof using Type.
  intros Hkey. rewrite generate_ai_response_tier.
  destruct (severity_tier lower user_message) as [t|].
  - split; [apply calls_openai_Ret | by left].
  - split.
    + unfold after_triage, fallback, call. rewrite Hkey.
      intros [Hc | [x Hc]]%calls_openai_inv; [done|].
      by apply calls_openai_Ret in Hc.
    + right. by rewrite run_after_triage, Hkey.
Qed.

(** A message outside every tier always gets an answer: the stripped
    content of the completion when a key is configured and both the
    history query and the completion call deliver, and otherwise the
    random pick among the supportive responses. *)
Theorem responder_fallback api_key user_message session_id (w : World) :
  severity_tier lower user_message = None ->
  (truthy api_key = false \/ w_recent w session_id 10 = None \/
   w_completion w (completion_request user_message) = None ->
   (run w (generate_ai_response lower strip api_key user_message session_id)).1
   = w_choice w supportive_responses) /\
  (forall history content,
     truthy api_key = true -> w_recent w session_id 10 = Some history ->
     w_completion w (completion_request user_message) = Some content ->
     (run w (generate_ai_response lower strip api_key user_message session_id)).1
     = strip content).
Proof using Type.
  intros Hnone. rewrite generate_ai_response_tier, Hnone, run_after_triage.
  split.
  - intros Hfail. destruct (truthy api_key); [|done].
    destruct (w_recent w session_id 10); [|done].
    destruct (w_completion w _); [|done].
    destruct Hfail as [? | [? | ?]]; discriminate.
  - intros history content -> -> ->. done.
Qed.

(** Whatever the collaborators answer, a response makes at most one
    completion call, and the request it sends carries the fixed system
    prompt and the user's message as typed: neither the lowercased text
    nor the conversation history that was queried is part of it. *)
Theorem completion_request_fixed api_key user_message session_id (w : World) :
  let log :=
    (run w (generate_ai_response lower strip api_key user_message session_id)).2 in
  (forall req, In (EvChatCompletion req) log ->
     req = completion_request user_message) /\
  (length (List.filter is_completion log) <= 1)%nat.
Proof using Type.
  cbn zeta. rewrite generate_ai_response_tier.
  destruct (severity_tier lower user_message) as [t|].
  - split; [intros req [] | cbn; lia].
  - rewrite run_after_triage.
    destruct (truthy api_key);
      [destruct (w_recent w session_id 10);
         [destruct (w_completion w _)|]|]; cbn;
      (split; [|lia]); intros req Hin;
      repeat (destruct Hin as [Hin | Hin]; [by simplify_eq|]); by destruct Hin.
Qed.

Lemma is_ascii_lower_char c :
  is_ascii (ascii_lower_char c) = true -> is_ascii c = true.
Proof using Type.
  unfold is_ascii, ascii_lower_char. cbn zeta.
  destruct ((65 <=? N_of_ascii c)%N && (N_of_ascii c <=? 90)%N) eqn:E; [|done].
  intros _. apply andb_true_iff in E as [_ E].
  apply N.leb_le in E. apply N.ltb_lt. lia.
Qed.

Lemma case_variant_is_ascii k :
  forallb is_ascii (list_ascii_of_string (ascii_lower k)) = true ->
  forallb is_ascii (list_ascii_of_string k) = true.
Proof using Type.
  induction k as [|c k IH]; [done|]. cbn.
  intros [Hc Hk]%andb_true_iff. apply andb_true_iff.
  split; [by apply is_ascii_lower_char | by apply IH].
Qed.

Lemma keywords_are_ascii t keyword :
  In keyword (keywords_of t) ->
  forallb is_ascii (list_ascii_of_string keyword) = true.
Proof using Type.
  intros Hin.
  assert (forallb (fun k => forallb is_ascii (list_ascii_of_string k))
            (keywords_of t) = true) as Hall by (by destruct t).
  rewrite forallb_forall in Hall. by apply Hall.
Qed.

Lemma severity_tier_crisis user_message :
  mentions lower crisis_keywords user_message ->
  severity_tier lower user_message = Some Crisis.
Proof using Type.
  unfold mentions, severity_tier, tiers. cbn [find keywords_of]. by intros ->.
Qed.

(** A keyword is found in whatever mix of upper and lower case it is
    written and wherever it stands in the message: the message then falls
    in a tier and gets a fixed response, and for a crisis keyword the
    crisis response. *)
Theorem keyword_in_any_case api_key session_id pre k post t :
  lowers_ascii_runs lower ->
  In (ascii_lower k) (keywords_of t) ->
  mentions lower (keywords_of t) (pre ++ k ++ post)%string /\
  (exists t',
     generate_ai_response lower strip api_key (pre ++ k ++ post)%string session_id
     = Ret (safety_response t')) /\
  (t = Crisis ->
   generate_ai_response lower strip api_key (pre ++ k ++ post)%string session_id
   = Ret crisis_response).
Proof using Type.
  intros Hlaw Hkw.
  assert (mentions lower (keywords_of t) (pre ++ k ++ post)%string) as Hm.
  { unfold mentions. apply any_in_spec. exists (ascii_lower k). split; [done|].
    apply contains_spec.
    destruct (Hlaw pre k post) as (pre' & post' & ->); [|by eauto].
    apply case_variant_is_ascii. by eapply keywords_are_ascii. }
  split_and!; [done| |].
  - rewrite generate_ai_response_tier.
    destruct (severity_tier lower _) as [t'|] eqn:E; [by eauto|].
    exfalso. unfold severity_tier in E.
    assert (In t tiers) as Ht by (destruct t; cbn; auto).
    apply (find_none _ _ E) in Ht. unfold mentions in Hm. congruence.
  - intros ->. rewrite generate_ai_response_tier.
    by rewrite (severity_tier_crisis _ Hm).
Qed.

End Replies.

Lemma ascii_lower_app s t :
  ascii_lower (s ++ t)%string = (ascii_lower s ++ ascii_lower t)%string.
Proof.
  induction s as [|c s IH]; [done|].
  rewrite !append_String. cbn. rewrite append_String. by rewrite IH.
Qed.

Lemma ascii_lower_lowers_runs : lowers_ascii_runs ascii_lower.
Proof.
  intros pre k post _. exists (ascii_lower pre), (ascii_lower post).
  by rewrite !ascii_lower_app.
Defined.

Definition quiet_world : World :=
  {| w_recent := fun _ _ => None;
     w_completion := fun _ => None;
     w_choice := fun l => hd "" l |}.

Definition chatty_world : World :=
  {| w_recent := fun _ _ => Some [];
     w_completion := fun _ => Some "  Hi there. ";
     w_choice := fun l => hd "" l |}.

Lemma no_key_no_call_witness :
  ~ calls_openai (generate_ai_response ascii_lower (fun s => s) (Some "")
                    "Good morning" 7) /\
  run chatty_world
    (generate_ai_response ascii_lower (fun s => s) None "Good morning" 7)
  = ("I understand how you're feeling. Would you like to explore some coping strategies together?",
     [EvRandomChoice]).
Proof.
  split.
  - apply (no_key_no_call ascii_lower (fun s => s) (Some "") "Good morning" 7
             chatty_world eq_refl).
  - destruct (proj2 (no_key_no_call ascii_lower (fun s => s) None "Good morning" 7
                       chatty_world eq_refl)) as [Hnil | Hrun].
    + discriminate Hnil.
    + exact Hrun.
Defined.

Lemma responder_fallback_witness :
  (run quiet_world
     (generate_ai_response ascii_lower (fun s => s) (Some "sk-test")
        "Good morning" 7)).1
  = "I understand how you're feeling. Would you like to explore some coping strategies together?" /\
  (run chatty_world
     (generate_ai_response ascii_lower (fun s => s) (Some "sk-test")
        "Good morning" 7)).1
  = "  Hi there. ".
Proof.
  split.
  - apply (proj1 (responder_fallback ascii_lower (fun s => s) (Some "sk-test")
                    "Good morning" 7 quiet_world eq_refl)).
    right. by left.
  - apply (proj2 (responder_fallback ascii_lower (fun s => s) (Some "sk-test")
                    "Good morning" 7 chatty_world eq_refl) [] "  Hi there. ");
      reflexivity.
Defined.

Lemma completion_request_fixed_witness :
  In (EvChatCompletion (completion_request "Good MORNING"))
     (run chatty_world
        (generate_ai_response ascii_lower (fun s => s) (Some "sk-test")
           "Good MORNING" 7)).2 /\
  completion_request "Good MORNING" = completion_request "Good MORNING" /\
  (length (List.filter is_completion
             (run chatty_world
                (generate_ai_response ascii_lower (fun s => s) (Some "sk-test")
                   "Good MORNING" 7)).2) <= 1)%nat.
Proof.
  assert (In (EvChatCompletion (completion_request "Good MORNING"))
            (run chatty_world
               (generate_ai_response ascii_lower (fun s => s) (Some "sk-test")
                  "Good MORNING" 7)).2) as Hin.
  { right. left. reflexivity. }
  split_and!.
  - exact Hin.
  - apply (proj1 (completion_request_fixed ascii_lower (fun s => s)
                    (Some "sk-test") "Good MORNING" 7 chatty_world) _ Hin).
  - apply (proj2 (completion_request_fixed ascii_lower (fun s => s)
                    (Some "sk-test") "Good MORNING" 7 chatty_world)).
Defined.

Lemma keyword_in_any_case_witness :
  generate_ai_response ascii_lower (fun s => s) (Some "sk-test")
    ("Sometimes I think about " ++ "SuiCide" ++ ", you know")%string 7
  = Ret crisis_response.
Proof.
  apply (proj2 (proj2 (keyword_in_any_case ascii_lower (fun s => s) (Some "sk-test")
                         7 "Sometimes I think about " "SuiCide" ", you know"
                         Crisis ascii_lower_lowers_runs (or_introl eq_refl)))).
  reflexivity.
Defined.

End Replies.

(** ** The chat session handlers of [app/routers/chat.py] *)

Module ChatApi.
Import PyStr Chat Users.

(** The columns of [chat_sessions] that decide what the handlers answer;
    the timestamps of a session are not carried. *)
Record ChatSession := {
  cs_id : Z;
  cs_user_id : Z;
  cs_title : string;
  cs_is_active : bool
}.

(** A row of [chat_messages]. *)
Record MessageRow := {
  m_id : Z;
  m_session_id : Z;
  m_role : string;
  m_content : string;
  m_timestamp : Z
}.

Record Store := {
  sessions : list ChatSession;
  stored_messages : list MessageRow
}.

(** The keys and the clock readings of one request: the primary keys the
    database assigns and the [timestamp] defaults of the rows it stores. *)
Record Draw := {
  first_id : Z;
  first_time : Z;
  second_id : Z;
  second_time : Z
}.

Definition ChatHandler (A : Type) : Type := Store -> Outcome A * Store.

#[global] Instance ChatHandler_ret : MRet ChatHandler := fun A a st => (Ok a, st).

#[global] Instance ChatHandler_bind : MBind ChatHandler := fun A B f m st =>
  match m st with
  | (Ok a, st') => f a st'
  | (Raise e, st') => (Raise e, st')
  | (Crash, st') => (Crash, st')
  end.

Definition not_found : HTTPException :=
  {| status_code := 404; detail := "Chat session not found" |}.

Definition chat_raise {A} (e : HTTPException) : ChatHandler A :=
  fun st => (Raise e, st).

Definition chat_crash {A} : ChatHandler A := fun st => (Crash, st).

(** [db.query(ChatSession).filter(P).first()] *)
Definition first_session (P : ChatSession -> Prop) `{forall s, Decision (P s)} :
    ChatHandler (option (nat * ChatSession)) :=
  fun st => (Ok (list_find P (sessions st)), st).

(** [db.add(row); db.commit()] *)
Definition add_session (row : ChatSession) : ChatHandler unit :=
  fun st => (Ok tt, {| sessions := sessions st ++ [row];
                       stored_messages := stored_messages st |}).

Definition add_message (row : MessageRow) : ChatHandler unit :=
  fun st => (Ok tt, {| sessions := sessions st;
                       stored_messages := stored_messages st ++ [row] |}).

(** The changed attributes of the session at position [i], written by
    [db.commit()]. *)
Definition update_session (i : nat) (row : ChatSession) : ChatHandler unit :=
  fun st => (Ok tt, {| sessions := <[i := row]> (sessions st);
                       stored_messages := stored_messages st |}).

Definition set_title (s : ChatSession) (title : string) : ChatSession :=
  {| cs_id := cs_id s; cs_user_id := cs_user_id s; cs_title := title;
     cs_is_active := cs_is_active s |}.

Definition set_session_active (s : ChatSession) (active : bool) : ChatSession :=
  {| cs_id := cs_id s; cs_user_id := cs_user_id s; cs_title := cs_title s;
     cs_is_active := active |}.

(** The messages of a session, in table order. *)
Definition session_messages (st : Store) (session_id : Z) : list MessageRow :=
  filter (fun m => m_session_id m = session_id) (stored_messages st).

(** [ChatMessageResponse.from_orm(msg)] on a row read from the table.  The
    schema asks for [msg.metadata]; the column is [message_metadata], and
    [metadata] on such a row is the table registry of the declarative
    base, which does not validate as a dictionary: the call raises, for
    every row. *)
Definition from_orm_stored (msg : MessageRow) : option MessageRow := None.

Definition welcome_text (first_name : string) : string :=
  "Hello " +:+ first_name +:+
  "! I'm your SergeAI assistant. I'm here to support you through any challenges you're facing. How are you feeling today?".

Record APIResponse := {
  success : bool;
  message : string;
  data : gmap string Z
}.

Section SessionHandlers.

(** [str.lower], [str.strip], [str.split], [len] and the slice [s[:n]] of
    the runtime. *)
Variable lower : string -> string.
Variable strip : string -> string.
Variable split : string -> list string.
Variable len : string -> Z.
Variable prefix : Z -> string -> string.

(** [ORDER BY timestamp] of the database, ascending and descending. *)
Variable order_by_timestamp : list MessageRow -> list MessageRow.
Variable order_by_timestamp_desc : list MessageRow -> list MessageRow.

(** [openai.api_key], the completion service and [random.choice]. *)
Variable api_key : option string.
Variable completion : CompletionRequest -> option string.
Variable choice : list string -> string.

(** The collaborators [generate_ai_response] meets when it is called on
    the store [st]. *)
Definition world (st : Store) : World :=
  {| w_recent := fun session_id limit =>
       Some ((fun m => {| msg_role := m_role m; msg_content := m_content m |}) <$>
             take (Z.to_nat limit)
               (order_by_timestamp_desc (session_messages st session_id)));
     w_completion := completion;
     w_choice := choice |}.

(** [db.query(ChatMessage).filter(...).order_by(ChatMessage.timestamp).all()] *)
Definition query_messages (session_id : Z) : ChatHandler (list MessageRow) :=
  fun st => (Ok (order_by_timestamp (session_messages st session_id)), st).

(** [await generate_ai_response(content, session_id, db)] *)
Definition await_ai_response (content : string) (session_id : Z) :
    ChatHandler string :=
  fun st =>
    (Ok (run (world st)
           (generate_ai_response lower strip api_key content session_id)).1, st).

(** [full_name] is the column of [current_user] the welcome reads. *)
Definition create_chat_session (draw : Draw) (current_user : User)
    (full_name : string) : ChatHandler ChatSession :=
  let new_session :=
    {| cs_id := first_id draw; cs_user_id := id current_user;
       cs_title := "New Chat"; cs_is_active := true |} in
  _ ← add_session new_session;
  match split full_name with
  | [] => chat_crash
  | first_name :: _ =>
      let welcome_message :=
        {| m_id := second_id draw; m_session_id := cs_id new_session;
           m_role := "assistant"; m_content := welcome_text first_name;
           m_timestamp := second_time draw |} in
      _ ← add_message welcome_message;
      mret new_session
  end.

(** The exception of [from_orm] is not caught. *)
Definition get_chat_session (session_id : Z) (current_user : User) :
    ChatHandler (ChatSession * list MessageRow) :=
  session ← first_session (fun s => cs_id s = session_id /\
                                    cs_user_id s = id current_user /\
                                    cs_is_active s = true);
  match session with
  | None => chat_raise not_found
  | Some (_, session) =>
      messages ← query_messages (cs_id session);
      match mapM from_orm_stored messages with
      | None => chat_crash
      | Some responses => mret (session, responses)
      end
  end.

(** The user's message is committed before the reply is computed.  The
    assignment to [session.updated_at] is not carried, and since no step
    of the [try] block raises here its [except] branch is left out. *)
Definition send_message (draw : Draw) (session_id : Z) (content : string)
    (current_user : User) : ChatHandler MessageRow :=
  session ← first_session (fun s => cs_id s = session_id /\
                                    cs_user_id s = id current_user /\
                                    cs_is_active s = true);
  match session with
  | None => chat_raise not_found
  | Some (i, session) =>
      let user_message :=
        {| m_id := first_id draw; m_session_id := session_id; m_role := "user";
           m_content := content; m_timestamp := first_time draw |} in
      _ ← add_message user_message;
      ai_response_content ← await_ai_response content session_id;
      let ai_message :=
        {| m_id := second_id draw; m_session_id := session_id;
           m_role := "assistant"; m_content := ai_response_content;
           m_timestamp := second_time draw |} in
      let title :=
        if decide (cs_title session = "New Chat") then
          if 50 <? len content then prefix 50 content +:+ "..." else content
        else cs_title session in
      _ ← add_message ai_message;
      _ ← update_session i (set_title session title);
      mret ai_message
  end.

Definition delete_chat_session (session_id : Z) (current_user : User) :
    ChatHandler APIResponse :=
  session ← first_session (fun s => cs_id s = session_id /\
                                    cs_user_id s = id current_user);
  match session with
  | None => chat_raise not_found
  | Some (i, session) =>
      _ ← update_session i (set_session_active session false);
      mret {| success := true;
              message := "Chat session deleted successfully";
              data := {["session_id" := session_id]} |}
  end.

(** *** Properties of the session handlers *)

Ltac run_chat :=
  unfold send_message, get_chat_session, delete_chat_session,
    create_chat_session, first_session, add_session, add_message,
    update_session, query_messages, await_ai_response, chat_raise, chat_crash,
    mbind, ChatHandler_bind, mret, ChatHandler_ret;
  cbn beta iota zeta.

(** A session a user may write to: the row at position [i] has this id,
    belongs to the user and is active; ids are unique in the table. *)
Definition owns_active (st : Store) (i : nat) (s : ChatSession)
    (session_id : Z) (current_user : User) : Prop :=
  NoDup (cs_id <$> sessions st) /\ sessions st !! i = Some s /\
  cs_id s = session_id /\ cs_user_id s = id current_user /\
  cs_is_active s = true.

Lemma find_session (P : ChatSession -> Prop) `{forall s, Decision (P s)}
    (l : list ChatSession) i s :
  NoDup (cs_id <$> l) -> l !! i = Some s -> P s ->
  (forall s', P s' -> cs_id s' = cs_id s) ->
  list_find P l = Some (i, s).
Proof using Type.
  intros Hnd Hi HP Hkey. apply list_find_Some. split_and!; [done..|].
  intros j y Hj Hlt HPy.
  assert (j = i); [|lia].
  eapply (NoDup_lookup _ j i (cs_id s) Hnd).
  - by rewrite list_lookup_fmap, Hj, <- (Hkey y HPy).
  - by rewrite list_lookup_fmap, Hi.
Qed.

Lemma find_owned_active (st : Store) i s session_id current_user :
  owns_active st i s session_id current_user ->
  list_find (fun s => cs_id s = session_id /\ cs_user_id s = id current_user /\
                      cs_is_active s = true) (sessions st) = Some (i, s).
Proof using Type.
  intros (Hnd & Hi & Hid & Hu & Ha).
  apply find_session; [done..|]. intros s' (? & _). congruence.
Qed.

Lemma find_none_session (P : ChatSession -> Prop) `{forall s, Decision (P s)}
    (l : list ChatSession) :
  (forall s, s ∈ l -> ~ P s) -> list_find P l = None.
Proof using Type. intros Hno. by apply list_find_None, Forall_forall. Qed.

(** The state [send_message] leaves, given the session it found. *)
Definition sent (draw : Draw) (session_id : Z) (content : string)
    (st : Store) (i : nat) (s : ChatSession) : MessageRow * Store :=
  let user_message :=
    {| m_id := first_id draw; m_session_id := session_id; m_role := "user";
       m_content := content; m_timestamp := first_time draw |} in
  let st1 := {| sessions := sessions st;
                stored_messages := stored_messages st ++ [user_message] |} in
  let reply :=
    {| m_id := second_id draw; m_session_id := session_id; m_role := "assistant";
       m_content :=
         (run (world st1)
            (generate_ai_response lower strip api_key content session_id)).1;
       m_timestamp := second_time draw |} in
  let title :=
    if decide (cs_title s = "New Chat") then
      if 50 <? len content then prefix 50 content +:+ "..." else content
    else cs_title s in
  (reply,
   {| sessions := <[i := set_title s title]> (sessions st);
      stored_messages := (stored_messages st ++ [user_message]) ++ [reply] |}).

Lemma send_message_found draw session_id content current_user (st : Store) i s :
  owns_active st i s session_id current_user ->
  send_message draw session_id content current_user st =
  (Ok (sent draw session_id content st i s).1,
   (sent draw session_id content st i s).2).
Proof using Type.
  intros Hown. run_chat. rewrite (find_owned_active st i s _ _ Hown). done.
Qed.


(** On an active session of the requesting user [send_message] stores
    exactly two rows after those already there, the user's message as sent
    and then the assistant's reply it returns, both in that session; the
    messages of every other session are the same as before; no session is
    added or removed, the other sessions are as they were, and the session
    written to keeps its id, its owner and its active flag. *)
Theorem send_message_appends draw session_id content current_user (st : Store) i s :
  owns_active st i s session_id current_user ->
  exists reply st',
    send_message draw session_id content current_user st = (Ok reply, st') /\
    stored_messages st' =
      (stored_messages st ++
       [ {| m_id := first_id draw; m_session_id := session_id; m_role := "user";
            m_content := content; m_timestamp := first_time draw |}; reply ])%list /\
    m_role reply = "assistant" /\ m_session_id reply = session_id /\
    (forall other, other <> session_id ->
       session_messages st' other = session_messages st other) /\
    length (sessions st') = length (sessions st) /\
    (forall j, j <> i -> sessions st' !! j = sessions st !! j) /\
    (exists s', sessions st' !! i = Some s' /\
       cs_id s' = cs_id s /\ cs_user_id s' = cs_user_id s /\
       cs_is_active s' = cs_is_active s).
Proof using Type.
  intros Hown. eexists _, _. split; [by apply send_message_found|].
  destruct Hown as (_ & Hi & _).
  cbn. split_and!.
  - by rewrite <- app_assoc.
  - done.
  - done.
  - intros other Hother. unfold session_messages. cbn.
    rewrite !filter_app. cbn.
    rewrite !decide_False by (cbn; congruence). cbn. by rewrite !app_nil_r.
  - apply length_insert.
  - intros j Hj. by apply list_lookup_insert_ne.
  - eexists. split.
    + apply list_lookup_insert_eq. by eapply lookup_lt_Some.
    + done.
Qed.

(** The reply stored for a message in a tier is that tier's fixed
    response, whatever the completion service and the random pick would
    have answered. *)
Theorem safety_reply_is_stored draw session_id content current_user
    (st : Store) i s t :
  owns_active st i s session_id current_user ->
  severity_tier lower content = Some t ->
  exists reply st',
    send_message draw session_id content current_user st = (Ok reply, st') /\
    m_content reply = safety_response t /\
    last (stored_messages st') = Some reply.
Proof using Type.
  intros Hown Ht. eexists _, _. split; [by apply send_message_found|].
  cbn. split.
  - by rewrite generate_ai_response_tier, Ht.
  - by rewrite last_snoc.
Qed.

Lemma owns_active_retitled (st st' : Store) i s title session_id current_user :
  owns_active st i s session_id current_user ->
  sessions st' = <[i := set_title s title]> (sessions st) ->
  owns_active st' i (set_title s title) session_id current_user.
Proof using Type.
  intros (Hnd & Hi & Hid & Hu & Ha) Hs. unfold owns_active. rewrite Hs.
  split_and!; [|by apply list_lookup_insert_eq; eapply lookup_lt_Some|done..].
  rewrite list_fmap_insert. cbn.
  rewrite list_insert_id; [done|]. by rewrite list_lookup_fmap, Hi.
Qed.

(** The first message of a session gives it its title, and later messages
    leave that title alone: after a message of at most fifty characters
    (other than the text "New Chat" itself) in a session still titled
    "New Chat", the [title] of the session is that message, and it still
    is after the next message. *)
Theorem title_set_once draw1 draw2 session_id content1 content2 current_user
    (st : Store) i s :
  owns_active st i s session_id current_user ->
  cs_title s = "New Chat" -> len content1 <= 50 -> content1 <> "New Chat" ->
  let st1 := (send_message draw1 session_id content1 current_user st).2 in
  let st2 := (send_message draw2 session_id content2 current_user st1).2 in
  (exists s1, sessions st1 !! i = Some s1 /\ cs_title s1 = content1 /\
     cs_id s1 = session_id) /\
  (exists s2, sessions st2 !! i = Some s2 /\ cs_title s2 = content1 /\
     cs_id s2 = session_id).
Proof using Type.
  intros Hown Htitle Hlen Hne st1 st2. subst st2 st1.
  rewrite (send_message_found draw1 _ content1 _ st i s Hown). cbn [snd].
  assert (sessions (sent draw1 session_id content1 st i s).2 =
          <[i := set_title s content1]> (sessions st)) as Hs1.
  { cbn. rewrite decide_True by done.
    by destruct (Z.ltb_spec 50 (len content1)); [lia|]. }
  pose proof (owns_active_retitled st _ i s content1 _ _ Hown Hs1) as Hown1.
  rewrite (send_message_found draw2 _ content2 _ _ i _ Hown1). cbn [snd].
  destruct Hown as (_ & Hi & Hid & _).
  assert (i < length (sessions st))%nat as Hlt by by eapply lookup_lt_Some.
  split.
  - exists (set_title s content1). split; [|by split].
    rewrite Hs1. by apply list_lookup_insert_eq.
  - exists (set_title s content1). split; [|by split].
    cbn -[sent]. unfold sent at 1. cbn -[sent]. rewrite Hs1.
    rewrite decide_False by done. cbn.
    rewrite list_insert_insert_eq. by apply list_lookup_insert_eq.
Qed.

(** Deleting a session of one's own only hides it: its messages stay
    stored, [send_message] and [get_chat_session] answer it with a 404
    from then on, and deleting it again succeeds and changes nothing. *)
Theorem delete_chat_session_soft session_id current_user (st : Store) i s :
  NoDup (cs_id <$> sessions st) -> sessions st !! i = Some s ->
  cs_id s = session_id -> cs_user_id s = id current_user ->
  let r := delete_chat_session session_id current_user st in
  (exists resp, r.1 = Ok resp /\ success resp = true /\
     data resp !! "session_id" = Some session_id) /\
  stored_messages r.2 = stored_messages st /\
  sessions r.2 = <[i := set_session_active s false]> (sessions st) /\
  (forall draw content,
     send_message draw session_id content current_user r.2
     = (Raise not_found, r.2)) /\
  get_chat_session session_id current_user r.2 = (Raise not_found, r.2) /\
  delete_chat_session session_id current_user r.2 = (r.1, r.2).
Proof using Type.
  intros Hnd Hi Hid Hu r. subst r.
  assert (i < length (sessions st))%nat as Hlt by by eapply lookup_lt_Some.
  assert (delete_chat_session session_id current_user st =
          (Ok {| success := true; message := "Chat session deleted successfully";
                 data := {["session_id" := session_id]} |},
           {| sessions := <[i := set_session_active s false]> (sessions st);
              stored_messages := stored_messages st |})) as ->.
  { run_chat.
    rewrite (find_session (fun s => cs_id s = session_id /\
                                    cs_user_id s = id current_user)
               (sessions st) i s Hnd Hi); [done|done|].
    intros s' [? _]. congruence. }
  cbn [fst snd sessions stored_messages].
  set (s0 := set_session_active s false).
  assert (NoDup (cs_id <$> <[i := s0]> (sessions st))) as Hnd'.
  { rewrite list_fmap_insert. cbn.
    rewrite list_insert_id; [done|]. by rewrite list_lookup_fmap, Hi. }
  assert (<[i := s0]> (sessions st) !! i = Some s0) as Hi'
    by by apply list_lookup_insert_eq.
  assert (list_find (fun s => cs_id s = session_id /\
                              cs_user_id s = id current_user /\
                              cs_is_active s = true)
            (<[i := s0]> (sessions st)) = None) as Hnone.
  { apply find_none_session. intros s' [j Hj]%list_elem_of_lookup (Hid' & _ & Ha).
    assert (j = i) as ->.
    { eapply (NoDup_lookup _ j i session_id Hnd').
      - by rewrite list_lookup_fmap, Hj, <- Hid'.
      - by rewrite list_lookup_fmap, Hi', <- Hid. }
    rewrite Hi' in Hj. injection Hj as <-. discriminate. }
  split_and!.
  - eexists. split_and!; [done..|]. cbn. apply lookup_singleton_eq.
  - done.
  - done.
  - intros draw content. run_chat. cbn. by rewrite Hnone.
  - run_chat. cbn. by rewrite Hnone.
  - run_chat. cbn.
    rewrite (find_session (fun s => cs_id s = session_id /\
                                    cs_user_id s = id current_user)
               (<[i := s0]> (sessions st)) i s0 Hnd' Hi'); [|done|].
    + cbn. by rewrite list_insert_insert_eq.
    + intros s' [? _]. cbn. congruence.
Qed.

(** [create_chat_session] stores a session titled "New Chat" for the user
    and then a welcome from the assistant that greets the first word of
    the user's full name.  When the full name holds no word the session is
    stored all the same, no welcome is, and the request ends as an
    unhandled error. *)
Theorem create_chat_session_outcome draw current_user full_name (st : Store) :
  let new_session :=
    {| cs_id := first_id draw; cs_user_id := id current_user;
       cs_title := "New Chat"; cs_is_active := true |} in
  (forall first_name rest, split full_name = first_name :: rest ->
   create_chat_session draw current_user full_name st =
   (Ok new_session,
    {| sessions := sessions st ++ [new_session];
       stored_messages :=
         stored_messages st ++
         [ {| m_id := second_id draw; m_session_id := first_id draw;
              m_role := "assistant"; m_content := welcome_text first_name;
              m_timestamp := second_time draw |} ] |})) /\
  (split full_name = [] ->
   create_chat_session draw current_user full_name st =
   (Crash, {| sessions := sessions st ++ [new_session];
              stored_messages := stored_messages st |})).
Proof using Type.
  cbn zeta. split.
  - intros first_name rest Hs. run_chat. by rewrite Hs.
  - intros Hs. run_chat. by rewrite Hs.
Qed.

Lemma from_orm_stored_all (messages : list MessageRow) :
  mapM from_orm_stored messages =
  match messages with [] => Some [] | _ => None end.
Proof using Type. by destruct messages. Qed.

(** [get_chat_session] on an active session of one's own answers only
    while the session holds no message, with the session and an empty
    list.  As soon as a message is stored for the session, hence after
    every [send_message], building the response raises and the request
    ends as an unhandled error; the store is left as it was. *)
Theorem get_chat_session_messages session_id current_user (st : Store) i s :
  (forall l, order_by_timestamp l ≡ₚ l) ->
  owns_active st i s session_id current_user ->
  (session_messages st session_id = [] ->
   get_chat_session session_id current_user st = (Ok (s, []), st)) /\
  (session_messages st session_id <> [] ->
   get_chat_session session_id current_user st = (Crash, st)) /\
  (forall draw content,
     let st' := (send_message draw session_id content current_user st).2 in
     get_chat_session session_id current_user st' = (Crash, st')).
Proof using Type.
  intros Hperm Hown.
  assert (forall st0 i0 s0,
    owns_active st0 i0 s0 session_id current_user ->
    get_chat_session session_id current_user st0 =
    match session_messages st0 session_id with
    | [] => (Ok (s0, []), st0)
    | _ => (Crash, st0)
    end) as Hget.
  { intros st0 i0 s0 Hown0. run_chat.
    rewrite (find_owned_active st0 i0 s0 _ _ Hown0). cbn.
    rewrite from_orm_stored_all.
    destruct Hown0 as (_ & _ & -> & _).
    destruct (session_messages st0 session_id) as [|m l] eqn:E.
    - by rewrite (proj1 (Permutation_nil_r _) (Hperm [])).
    - destruct (order_by_timestamp (m :: l)) as [|m' l'] eqn:E'; [|done].
      pose proof (Hperm (m :: l)) as Hp. rewrite E' in Hp.
      by apply Permutation_nil_cons in Hp. }
  split_and!.
  - intros Hnone. by rewrite (Hget st i s Hown), Hnone.
  - intros Hsome. rewrite (Hget st i s Hown).
    by destruct (session_messages st session_id).
  - intros draw content st'. subst st'.
    rewrite (send_message_found draw _ content _ st i s Hown). cbn [snd].
    erewrite Hget.
    2: { eapply owns_active_retitled; [exact Hown | reflexivity]. }
    unfold session_messages. cbn. rewrite !filter_app. cbn.
    rewrite !decide_True by done.
    by destruct (filter _ (stored_messages st)).
Qed.

End SessionHandlers.

(** *** The session handlers on a sample store *)

(** Stand-ins for the runtime and the database: words are split at
    spaces, lengths and slices count bytes, and rows are sorted stably. *)
Fixpoint split_words (word s : string) : list string :=
  match s with
  | EmptyString => match word with EmptyString => [] | _ => [word] end
  | String c s' =>
      if Ascii.eqb c " "%char then
        match word with
        | EmptyString => split_words EmptyString s'
        | _ => word :: split_words EmptyString s'
        end
      else split_words (word +:+ String c EmptyString) s'
  end.

Definition sample_split (s : string) : list string := split_words EmptyString s.
Definition sample_len (s : string) : Z := Z.of_nat (String.length s).
Definition sample_prefix (n : Z) (s : string) : string :=
  String.substring 0 (Z.to_nat n) s.

Definition earlier (a b : MessageRow) : Prop := m_timestamp a <= m_timestamp b.
Definition later (a b : MessageRow) : Prop := m_timestamp b <= m_timestamp a.

#[global] Instance earlier_dec : RelDecision earlier :=
  fun a b => decide (m_timestamp a <= m_timestamp b).
#[global] Instance later_dec : RelDecision later :=
  fun a b => decide (m_timestamp b <= m_timestamp a).

Definition sample_order (l : list MessageRow) : list MessageRow :=
  merge_sort earlier l.
Definition sample_order_desc (l : list MessageRow) : list MessageRow :=
  merge_sort later l.

Definition no_completion (req : CompletionRequest) : option string := None.
Definition first_choice (l : list string) : string := hd "" l.

Definition alice_chat : ChatSession :=
  {| cs_id := 1; cs_user_id := 1; cs_title := "New Chat"; cs_is_active := true |}.
Definition bob_chat : ChatSession :=
  {| cs_id := 2; cs_user_id := 2; cs_title := "Work"; cs_is_active := true |}.

Definition sample_store : Store :=
  {| sessions := [alice_chat; bob_chat];
     stored_messages :=
       [ {| m_id := 1; m_session_id := 1; m_role := "assistant";
            m_content := welcome_text "Alice"; m_timestamp := 10 |};
         {| m_id := 2; m_session_id := 2; m_role := "user";
            m_content := "Deadline tomorrow"; m_timestamp := 20 |} ] |}.

Definition sample_draw : Draw :=
  {| first_id := 3; first_time := 30; second_id := 4; second_time := 31 |}.

Definition next_draw : Draw :=
  {| first_id := 5; first_time := 40; second_id := 6; second_time := 41 |}.

Lemma sample_store_ids : NoDup (cs_id <$> sessions sample_store).
Proof.
  cbn. apply NoDup_cons. split; [|apply NoDup_singleton].
  intros Hin. apply list_elem_of_singleton in Hin. discriminate.
Defined.

Lemma alice_owns_her_chat : owns_active sample_store 0 alice_chat 1 alice.
Proof. unfold owns_active. split_and!; [apply sample_store_ids | done..]. Defined.

Lemma sample_order_permutes l : sample_order l ≡ₚ l.
Proof. apply merge_sort_Permutation. Defined.



Lemma send_message_appends_witness :
  exists reply st',
    send_message ascii_lower (fun s => s) sample_len sample_prefix
      sample_order_desc None no_completion first_choice sample_draw 1
      "Good morning" alice sample_store = (Ok reply, st') /\
    length (stored_messages st') = 4%nat.
Proof.
  destruct (send_message_appends ascii_lower (fun s => s) sample_len sample_prefix
              sample_order_desc None no_completion first_choice sample_draw 1
              "Good morning" alice sample_store 0 alice_chat alice_owns_her_chat)
    as (reply & st' & Hrun & Hmsgs & _).
  exists reply, st'. split; [exact Hrun|]. by rewrite Hmsgs.
Defined.

Lemma safety_reply_is_stored_witness :
  exists reply st',
    send_message ascii_lower (fun s => s) sample_len sample_prefix
      sample_order_desc (Some "sk-test") (fun _ => Some "Cheer up!") first_choice
      sample_draw 1 "I feel so LONELY" alice sample_store = (Ok reply, st') /\
    m_content reply = depression_response.
Proof.
  destruct (safety_reply_is_stored ascii_lower (fun s => s) sample_len sample_prefix
              sample_order_desc (Some "sk-test") (fun _ => Some "Cheer up!")
              first_choice sample_draw 1 "I feel so LONELY" alice sample_store
              0 alice_chat Depression alice_owns_her_chat eq_refl)
    as (reply & st' & Hrun & Hc & _).
  exists reply, st'. by split.
Defined.

Lemma title_set_once_witness :
  exists s2,
    sessions
      (send_message ascii_lower (fun s => s) sample_len sample_prefix
         sample_order_desc None no_completion first_choice next_draw 1
         "And another thing" alice
         (send_message ascii_lower (fun s => s) sample_len sample_prefix
            sample_order_desc None no_completion first_choice sample_draw 1
            "Good morning" alice sample_store).2).2 !! 0%nat
    = Some s2 /\ cs_title s2 = "Good morning" /\ cs_id s2 = 1.
Proof.
  apply (title_set_once ascii_lower (fun s => s) sample_len sample_prefix
           sample_order_desc None no_completion first_choice sample_draw next_draw
           1 "Good morning" "And another thing" alice sample_store 0 alice_chat
           alice_owns_her_chat eq_refl).
  - discriminate.
  - discriminate.
Defined.

Lemma delete_chat_session_soft_witness :
  get_chat_session sample_order 1 alice
    (delete_chat_session 1 alice sample_store).2
  = (Raise not_found, (delete_chat_session 1 alice sample_store).2) /\
  stored_messages (delete_chat_session 1 alice sample_store).2
  = stored_messages sample_store.
Proof.
  destruct (delete_chat_session_soft ascii_lower (fun s => s) sample_len
              sample_prefix sample_order sample_order_desc None no_completion
              first_choice 1 alice sample_store 0 alice_chat sample_store_ids
              eq_refl eq_refl eq_refl) as (_ & Hm & _ & _ & Hg & _).
  by split.
Defined.

Lemma create_chat_session_outcome_witness :
  (exists st',
     create_chat_session sample_split sample_draw alice "Alice Liddell" sample_store
     = (Ok {| cs_id := 3; cs_user_id := 1; cs_title := "New Chat";
              cs_is_active := true |}, st') /\
     length (stored_messages st') = 3%nat) /\
  (exists st',
     create_chat_session sample_split sample_draw alice "  " sample_store
     = (Crash, st') /\
     length (sessions st') = 3%nat /\ length (stored_messages st') = 2%nat).
Proof.
  split.
  - eexists. split.
    + apply (proj1 (create_chat_session_outcome sample_split sample_draw alice
                      "Alice Liddell" sample_store) "Alice" ["Liddell"]).
      reflexivity.
    + reflexivity.
  - eexists. split.
    + apply (proj2 (create_chat_session_outcome sample_split sample_draw alice
                      "  " sample_store)).
      reflexivity.
    + by split.
Defined.

(** The store after Carol opened a session and before any message was
    stored for it. *)
Definition carol : User :=
  {| id := 3; username := "carol"; email := "carol@example.org";
     hashed_password := "bcrypt:carol"; is_active := true;
     reset_token := None; reset_token_expires := None |}.

Definition carol_chat : ChatSession :=
  {| cs_id := 3; cs_user_id := 3; cs_title := "New Chat"; cs_is_active := true |}.

Definition store_with_carol : Store :=
  {| sessions := [alice_chat; bob_chat; carol_chat];
     stored_messages := stored_messages sample_store |}.

Lemma carol_owns_her_chat : owns_active store_with_carol 2 carol_chat 3 carol.
Proof.
  unfold owns_active. split_and!; [|done..].
  cbn. apply NoDup_cons. split.
  - intros Hin. apply elem_of_cons in Hin as [? | Hin]; [discriminate|].
    apply list_elem_of_singleton in Hin. discriminate.
  - apply NoDup_cons. split; [|apply NoDup_singleton].
    intros Hin. apply list_elem_of_singleton in Hin. discriminate.
Defined.

Example get_chat_session_after_welcome :
  get_chat_session sample_order 1 alice sample_store = (Crash, sample_store).
Proof. reflexivity. Qed.

Lemma get_chat_session_messages_witness :
  get_chat_session sample_order 3 carol store_with_carol
    = (Ok (carol_chat, []), store_with_carol) /\
  get_chat_session sample_order 1 alice sample_store = (Crash, sample_store).
Proof.
  split.
  - apply (proj1 (get_chat_session_messages ascii_lower (fun s => s) sample_len
                    sample_prefix sample_order sample_order_desc None
                    no_completion first_choice 3 carol store_with_carol 2
                    carol_chat sample_order_permutes carol_owns_her_chat)).
    reflexivity.
  - apply (proj1 (proj2 (get_chat_session_messages ascii_lower (fun s => s)
                    sample_len sample_prefix sample_order sample_order_desc None
                    no_completion first_choice 1 alice sample_store 0
                    alice_chat sample_order_permutes alice_owns_her_chat))).
    discriminate.
Defined.

End ChatApi.
